(** * Checkout reconciler of isomorphic-git: a shallow embedding

    Sources embedded here:
    - [src/commands/checkout.js]      (function [checkout])
    - [src/commands/currentBranch.js] (function [currentBranch])

    The collaborators that [checkout] consumes only through their
    interfaces (the file system, the config store, the ref manager, the
    plugin cores, the tree walkers and the index manager) are not among
    the sources.  Every call that [checkout] makes to one of them is
    recorded, in order, as an [Event]; what the collaborator answers is
    read from an environment [Env] that sees the whole history of calls
    made so far, so that a stateful collaborator may answer the same
    question differently after a mutation.  The object reader is the
    exception: [checkout] calls it at line 212 only, and never looks at
    what it answers. *)

From stdpp Require Import base strings list gmap.
From Stdlib Require Import ZArith Ascii.

Local Open Scope string_scope.
Local Open Scope Z_scope.
Local Open Scope list_scope.

(** ** Errors *)

Module E.
(** Modelled from the spec: the code table [E] of [models/GitError.js]
    is not among the sources.  A code is represented by the key under
    which [checkout.js] names it; [Other] stands for every code that
    the embedded functions never name (resolver failures, file-system
    errno values, engine exceptions such as ReferenceError). *)
Inductive code : Type :=
| MissingRequiredParameterError
| ReadObjectFail
| CommitNotFetchedError
| InternalFail
| ObjectTypeAssertionInTreeFail
| NotImplementedFail
| Other (name : string).

#[global] Instance code_eq_dec : EqDecision code.
Proof. solve_decision. Defined.
End E.

(** [new GitError(code, data)]: [data] is a JS object used as a map from
    property names to strings; a property whose value is [undefined] is
    simply absent.  [caller] is the property that the outermost
    [catch] of each command assigns. *)
Record GitError : Type := mkGitError {
  code : E.code;
  data : gmap string string;
  caller : option string
}.

#[global] Instance GitError_eq_dec : EqDecision GitError.
Proof. solve_decision. Defined.

Definition new_GitError (c : E.code) (d : gmap string string) : GitError :=
  {| code := c; data := d; caller := None |}.

Definition set_caller (name : string) (err : GitError) : GitError :=
  {| code := code err; data := data err; caller := Some name |}.

(** A property [k: v] of an object literal, where [v] may be [undefined]. *)
Definition prop (k : string) (v : option string)
    (d : gmap string string) : gmap string string :=
  match v with
  | Some s => <[k := s]> d
  | None => d
  end.

Inductive Result (A : Type) : Type :=
| Ok (a : A)
| Throw (err : GitError).
Arguments Ok {A} a.
Arguments Throw {A} err.

(** ** Data model *)

Inductive OpKind : Type := unlink | write.

#[global] Instance OpKind_eq_dec : EqDecision OpKind.
Proof. solve_decision. Defined.

(** [{ op, filepath, oid, mode }], the entries of the [operations] array. *)
Record Operation : Type := mkOperation {
  op : OpKind;
  filepath : string;
  op_oid : option string;
  op_mode : option string
}.

#[global] Instance Operation_eq_dec : EqDecision Operation.
Proof. solve_decision. Defined.

(** The result of [fs.lstat]. *)
Record Stats : Type := mkStats {
  st_mode : Z;
  st_size : Z;
  st_mtimeMs : Z
}.

#[global] Instance Stats_eq_dec : EqDecision Stats.
Proof. solve_decision. Defined.

(** Modelled from the spec: the staging index ([models/GitIndex.js] is not
    among the sources) is a "unique-by-path ordered collection of
    {path, oid, stat}". *)
Record IndexEntry : Type := mkIndexEntry {
  path : string;
  ie_oid : option string;
  stats : Stats
}.

#[global] Instance IndexEntry_eq_dec : EqDecision IndexEntry.
Proof. solve_decision. Defined.

Definition GitIndex : Type := list IndexEntry.

Module Index.
(** Modelled from the spec: [index.insert] keeps the collection unique
    by path and ordered by path; [index.clear] empties it. *)
Fixpoint place (e : IndexEntry) (l : GitIndex) : GitIndex :=
  match l with
  | [] => [e]
  | x :: r =>
      if String.ltb (path e) (path x) then e :: x :: r
      else x :: place e r
  end.

Definition insert (fp : string) (st : Stats) (o : option string)
    (l : GitIndex) : GitIndex :=
  place {| path := fp; ie_oid := o; stats := st |}
        (filter (fun x => path x ≠ fp) l).

Definition clear (l : GitIndex) : GitIndex := [].
End Index.

(** ** Calls to the collaborators *)

Inductive LogItem : Type :=
| LogError (err : GitError)
| LogOperations (ops : list Operation)
| LogErrors (errs : list GitError).

Inductive Event : Type :=
| EvConfig (key value : string)                         (* config({path, value}) *)
| EvWrite (file : string) (contents : option string) (mode : option Z)
| EvWritelink (file : string) (target : option string)  (* fs.writelink *)
| EvRm (file : string)                                  (* fs.rm *)
| EvMkdir (file : string)                               (* fs.mkdir *)
| EvLog (item : LogItem)                                (* console.log *)
| EvAcquire (file : string)                             (* the index lock is taken *)
| EvIndexClear                                          (* index.clear() *)
| EvIndexInsert (file : string) (st : Stats) (o : option string)
| EvPersist (file : string) (index : GitIndex)          (* the index is saved *)
| EvRelease (file : string).                            (* the index lock is given back *)

#[global] Instance LogItem_eq_dec : EqDecision LogItem.
Proof. solve_decision. Defined.

#[global] Instance Event_eq_dec : EqDecision Event.
Proof. solve_decision. Defined.

(** ** Walker entries *)

(** What the source behind an entry yields when a field is populated. *)
Record Backing : Type := mkBacking {
  b_stat : Result (string * string);     (* type and mode *)
  b_hash : Result string;                (* oid *)
  b_content : Result string
}.

(** Modelled from the spec: the walker adapters ([GitWalkerRepo.js],
    [GitWalkerIndex.js]) are not among the sources.  An entry is
    "{fullpath, exists, type, mode, stat, oid, content}, fields populated
    lazily and monotonically"; "absence is data (exists=false), never an
    error".  The entry records which fields have been populated; a field
    that has not been is [undefined]. *)
Record WalkerEntry : Type := mkWalkerEntry {
  fullpath : string;
  backing : option Backing;
  stat_known : bool;
  hash_known : bool;
  content_known : bool
}.

Definition exists_ (e : WalkerEntry) : bool :=
  match backing e with Some _ => true | None => false end.

Definition stat_of (e : WalkerEntry) : option (string * string) :=
  match backing e with
  | Some b => match b_stat b with Ok tm => Some tm | Throw _ => None end
  | None => None
  end.

Definition hash_of (e : WalkerEntry) : option string :=
  match backing e with
  | Some b => match b_hash b with Ok o => Some o | Throw _ => None end
  | None => None
  end.

Definition content_of (e : WalkerEntry) : option string :=
  match backing e with
  | Some b => match b_content b with Ok c => Some c | Throw _ => None end
  | None => None
  end.

(** The properties [entry.type], [entry.mode], [entry.oid] and
    [entry.content]; [None] is [undefined]. *)
Definition type (e : WalkerEntry) : option string :=
  if stat_known e then fst <$> stat_of e else None.

Definition mode (e : WalkerEntry) : option string :=
  if stat_known e then snd <$> stat_of e else None.

Definition oid (e : WalkerEntry) : option string :=
  if hash_known e then hash_of e else None.

Definition content (e : WalkerEntry) : option string :=
  if content_known e then content_of e else None.

(** Modelled from the spec: the three lazy populate methods of an entry.
    Each fetches its fields from the source behind the entry, which may
    fail; on an absent entry there is nothing to fetch and nothing
    fails. *)
Definition populateStat (e : WalkerEntry) : Result WalkerEntry :=
  match backing e with
  | None => Ok e
  | Some b =>
      match b_stat b with
      | Ok _ => Ok {| fullpath := fullpath e; backing := backing e;
                      stat_known := true; hash_known := hash_known e;
                      content_known := content_known e |}
      | Throw err => Throw err
      end
  end.

Definition populateHash (e : WalkerEntry) : Result WalkerEntry :=
  match backing e with
  | None => Ok e
  | Some b =>
      match b_hash b with
      | Ok _ => Ok {| fullpath := fullpath e; backing := backing e;
                      stat_known := stat_known e; hash_known := true;
                      content_known := content_known e |}
      | Throw err => Throw err
      end
  end.

Definition populateContent (e : WalkerEntry) : Result WalkerEntry :=
  match backing e with
  | None => Ok e
  | Some b =>
      match b_content b with
      | Ok _ => Ok {| fullpath := fullpath e; backing := backing e;
                      stat_known := stat_known e; hash_known := hash_known e;
                      content_known := true |}
      | Throw err => Throw err
      end
  end.

(** An entry as the walker hands it to [map]: nothing populated yet. *)
Definition entry (fp : string) (b : option Backing) : WalkerEntry :=
  {| fullpath := fp; backing := b;
     stat_known := false; hash_known := false; content_known := false |}.

(** The tuples of one walk, in the order in which [map] receives them, and
    the failure of the walker itself, if any, once they have been handed
    out (a tree or commit object that cannot be read). *)
Record WalkPlan (T : Type) : Type := mkWalkPlan {
  visited : list T;
  failure : option GitError
}.
Arguments mkWalkPlan {T} visited failure.
Arguments visited {T} w.
Arguments failure {T} w.

(** ** The environment *)

Record Env : Type := mkEnv {
  (** the failure, if any, of the mutating call recorded last *)
  io_fails : list Event -> option GitError;
  (** [GitRefManager.resolve({gitdir, ref, depth})] *)
  ref_resolve : list Event -> string -> string -> option nat -> Result string;
  (** [GitRefManager.expand({gitdir, ref})] *)
  ref_expand : list Event -> string -> string -> Result string;
  (** [fs.lstat(filepath)] *)
  fs_lstat : list Event -> string -> Result Stats;
  (** [cores.get(core).get('fs')]: the error that the lookup throws for
      the core of that name, when it throws *)
  cores_fs : string -> option GitError;
  (** the index that [GitIndexManager.acquire] loads *)
  index_load : list Event -> string -> Result GitIndex;
  (** the walk over [WORKDIR, STAGE, TREE(currentRef), TREE(ref)],
      given [dir], [gitdir], [currentRef] and [ref] *)
  walk_classify : list Event -> string -> string -> string -> string ->
      WalkPlan (WalkerEntry * WalkerEntry * WalkerEntry * WalkerEntry);
  (** the walk over [TREE(ref), WORKDIR], given [dir], [gitdir], [ref] *)
  walk_materialize : list Event -> string -> string -> string ->
      WalkPlan (WalkerEntry * WalkerEntry);
  (** [path.join] of the platform *)
  path_join : string -> string -> string;
  (** what the identifier [filepath] denotes inside the loop over the
      queued writes, where [checkout.js] does not bind it: [None] when
      no enclosing scope binds it either (a ReferenceError) *)
  scope_filepath : option string
}.

(** ** The monad of [checkout]: history in, new calls and a result out *)

Definition M (A : Type) : Type := list Event -> list Event * Result A.

Definition ret {A} (a : A) : M A := fun _ => ([], Ok a).

Definition throw {A} (err : GitError) : M A := fun _ => ([], Throw err).

Definition bind {A B} (c : M A) (k : A -> M B) : M B := fun h =>
  match c h with
  | (e1, Ok a) => let '(e2, r) := k a (h ++ e1) in (e1 ++ e2, r)
  | (e1, Throw err) => (e1, Throw err)
  end.

Notation "x <- c ;; k" := (bind c (fun x => k))
  (at level 100, c at next level, right associativity).
Notation "c ;;; k" := (bind c (fun _ => k))
  (at level 100, right associativity).

(** [try { c } catch (err) { handler err }] *)
Definition try_catch {A} (c : M A) (handler : GitError -> M A) : M A := fun h =>
  match c h with
  | (e1, Ok a) => (e1, Ok a)
  | (e1, Throw err) => let '(e2, r) := handler err (h ++ e1) in (e1 ++ e2, r)
  end.

(** A call that is recorded and cannot fail. *)
Definition emit (ev : Event) : M unit := fun _ => ([ev], Ok tt).

(** A recorded call whose failure the environment decides. *)
Definition call (env : Env) (ev : Event) : M unit := fun h =>
  ([ev], match io_fails env (h ++ [ev]) with
         | None => Ok tt
         | Some err => Throw err
         end).

(** A question to the environment; nothing is recorded. *)
Definition ask {A} (f : list Event -> Result A) : M A := fun h => ([], f h).

Definition lift {A} (r : Result A) : M A := fun _ => ([], r).

(** [for (let x of l) { body x }] *)
Fixpoint for_of {T} (l : list T) (body : T -> M unit) : M unit :=
  match l with
  | [] => ret tt
  | x :: r => body x ;;; for_of r body
  end.

(** ** Small pieces of JavaScript *)

(** [a === b] on values that are strings or [undefined]. *)
Definition strict_eq (a b : option string) : bool := bool_decide (a = b).

(** [${v}] inside a template string. *)
Definition template (v : option string) : string := default "undefined" v.

(** The one-character string written ['\n'] in the source. *)
Definition nl : string := String "010"%char EmptyString.

(** The double quote inside a template string. *)
Definition dquote : string := String "034"%char EmptyString.

(** ** currentBranch.js *)

Module GitRefManager.
(** Modelled from the spec: [GitRefManager.abbrev] is not among the
    sources.  "[expand] tries a fixed precedence of prefixes (e.g.
    refs/heads/, refs/remotes/) ... [abbrev] is the inverse, stripping
    the shortest matching prefix." *)
Definition prefixes : list string := ["refs/heads/"; "refs/remotes/"].

Fixpoint strip (p s : string) : option string :=
  match p with
  | EmptyString => Some s
  | String a p' =>
      match s with
      | String b s' => if bool_decide (a = b) then strip p' s' else None
      | EmptyString => None
      end
  end.

Fixpoint shortest (l : list string) : option string :=
  match l with
  | [] => None
  | p :: r =>
      match shortest r with
      | None => Some p
      | Some q => if (String.length p <=? String.length q)%nat
                  then Some p else Some q
      end
  end.

Definition abbrev (ref : string) : string :=
  match shortest (filter (fun p => is_Some (strip p ref)) prefixes) with
  | Some p => default ref (strip p ref)
  | None => ref
  end.
End GitRefManager.

(** [currentBranch({ gitdir, fullname })] *)
Definition currentBranch (env : Env) (gitdir : string) (fullname : bool)
    : M string :=
  try_catch
    (ref <- ask (fun h => ref_resolve env h gitdir "HEAD" (Some 2%nat)) ;;
     if fullname then ret ref
     else ret (GitRefManager.abbrev ref))
    (fun err => throw (set_caller "git.currentBranch" err)).

(** ** checkout.js: the classification walk (lines 75-186) *)

(** The two arrays that the callback of the first walk appends to. *)
Record Plan : Type := mkPlan {
  operations : list Operation;
  errors : list GitError
}.

Definition push_operation (o : Operation) (p : Plan) : Plan :=
  {| operations := operations p ++ [o]; errors := errors p |}.

Definition push_error (err : GitError) (p : Plan) : Plan :=
  {| operations := operations p; errors := errors p ++ [err] |}.

Definition deleted_message (fp ref : string) : string :=
  "Your file " +:+ fp +:+ " has local changes but has been deleted in " +:+
  ref +:+ ". Commit or stash your changes before checking out " +:+ ref +:+ ".".

Definition added_message (fp ref : string) : string :=
  "You added file " +:+ fp +:+
  " but a different file with the same name was added in " +:+
  ref +:+ ". Commit or stash your changes before checking out " +:+ ref +:+ ".".

Definition changed_message (fp ref : string) : string :=
  "Your file " +:+ fp +:+ " has local changes but has been changed in " +:+
  ref +:+ ". Commit or stash your changes before checking out " +:+ ref +:+ ".".

Definition conflict (message : string) : GitError :=
  new_GitError E.InternalFail {[ "message" := message ]}.

Definition submodule_notice : GitError :=
  new_GitError E.NotImplementedFail {[ "thing" := "submodule support" ]}.

(** The [map] callback of the first walk, lines 87-185. *)
Definition classify_map (ref : string)
    (t : WalkerEntry * WalkerEntry * WalkerEntry * WalkerEntry)
    (p : Plan) : M Plan :=
  let '(workdir, stage, head, next) := t in
  if bool_decide (fullpath workdir = ".") then ret p
  else if negb (exists_ head) && negb (exists_ next) then ret p
  else
    next <- lift (populateStat next) ;;
    if strict_eq (type next) (Some "tree") then ret p
    else if strict_eq (type next) (Some "commit") then
      emit (EvLog (LogError submodule_notice)) ;;; ret p
    else if exists_ head && negb (exists_ next) then
      if negb (exists_ workdir) then ret p
      else
        workdir <- lift (populateHash workdir) ;;
        head <- lift (populateHash head) ;;
        if strict_eq (oid workdir) (oid head) then
          ret (push_operation
                 {| op := unlink; filepath := fullpath workdir;
                    op_oid := None; op_mode := None |} p)
        else
          ret (push_error (conflict (deleted_message (fullpath workdir) ref)) p)
    else if negb (exists_ head) && exists_ next then
      if negb (exists_ workdir) then
        next <- lift (populateStat next) ;;
        next <- lift (populateHash next) ;;
        ret (push_operation
               {| op := write; filepath := fullpath workdir;
                  op_oid := oid next; op_mode := mode next |} p)
      else
        workdir <- lift (populateHash workdir) ;;
        next <- lift (populateHash next) ;;
        if strict_eq (oid workdir) (oid next) then ret p
        else
          ret (push_error (conflict (added_message (fullpath workdir) ref)) p)
    else if exists_ head && exists_ next then
      head <- lift (populateHash head) ;;
      next <- lift (populateHash next) ;;
      if strict_eq (oid head) (oid next) then ret p
      else
        workdir <- lift (populateHash workdir) ;;
        if strict_eq (oid workdir) (oid next) then ret p
        else if strict_eq (oid workdir) (oid head) then
          next <- lift (populateStat next) ;;
          ret (push_operation
                 {| op := write; filepath := fullpath workdir;
                    op_oid := oid next; op_mode := mode next |} p)
        else
          ret (push_error (conflict (changed_message (fullpath workdir) ref)) p)
    else ret p.

(** Modelled from the spec: [walkBeta1] is not among the sources.  It
    "for ascending path order invokes [map] with one entry per source";
    the tuples come from the environment. *)
Fixpoint walk_entries {T S} (map : T -> S -> M S) (l : list T) (s : S) : M S :=
  match l with
  | [] => ret s
  | t :: r => s' <- map t s ;; walk_entries map r s'
  end.

Definition walkBeta1 {T S} (plan : WalkPlan T) (map : T -> S -> M S) (s : S)
    : M S :=
  s' <- walk_entries map (visited plan) s ;;
  match failure plan with
  | None => ret s'
  | Some err => throw err
  end.

(** Lines 75-186: the two arrays start empty and the first walk fills them. *)
Definition classify (env : Env) (dir gitdir currentRef ref : string) : M Plan :=
  fun h =>
    walkBeta1 (walk_classify env h dir gitdir currentRef ref)
              (classify_map ref)
              {| operations := []; errors := [] |} h.

(** ** checkout.js: the apply phase (lines 199-320) *)

(** Lines 203-209. *)
Definition unlink_loop (env : Env) (dir : string) (ops : list Operation)
    : M unit :=
  for_of ops (fun o =>
    if bool_decide (op o = unlink) then
      try_catch (call env (EvRm (dir +:+ "/" +:+ filepath o)))
                (fun _ => ret tt)
    else ret tt).

Definition reference_error (name : string) : GitError :=
  new_GitError (E.Other "ReferenceError")
               {[ "message" := name +:+ " is not defined" ]}.

(** What [let { type, object } = readObject(...)] of line 212 binds.
    [readObject] of [storage/readObject] is not among the sources; it is
    an asynchronous function, like every collaborator that reads the
    repository, and line 212 does not await it.  The value destructured
    is therefore a promise, which has neither property: both variables
    are [undefined], whatever the object store holds. *)
Definition unawaited : option string * option string := (None, None).

(** Lines 210-229.  The source is unfinished here: the result of
    [readObject] is destructured without being awaited, so that the test
    of line 213 fails for every queued write.  Past that test, which no
    run gets by, the [switch] has the single case ['100644'] (its second
    label is a placeholder without a body) and the write goes to the
    identifier [filepath], which this scope does not bind.  [entrypath]
    is read from [op.fullpath], a property that no queued operation
    has. *)
Definition write_loop (env : Env) (gitdir : string) (ops : list Operation)
    : M unit :=
  for_of ops (fun o =>
    if bool_decide (op o = write) then
      let '(ty, object) := unawaited in
      if negb (strict_eq ty (Some "blob")) then
        throw (new_GitError E.ObjectTypeAssertionInTreeFail
                 (prop "type" ty (prop "oid" (op_oid o) ∅)))
      else if strict_eq (op_mode o) (Some "100644") then
        match scope_filepath env with
        | Some fp => call env (EvWrite fp object None)
        | None => throw (reference_error "filepath")
        end
      else ret tt
    else ret tt).

(** Lines 234-238. *)
Definition remove_index_entries (env : Env) (dir : string) (index : GitIndex)
    : M unit :=
  for_of index (fun entry =>
    try_catch (call env (EvRm (path_join env dir (path entry))))
              (fun _ => ret tt)).

Definition invalid_mode (m o : option string) : GitError :=
  new_GitError E.InternalFail
    {[ "message" := "Invalid mode " +:+ dquote +:+ template m +:+ dquote +:+
                    " detected in blob " +:+ template o ]}.

Definition unknown_type (ty o : option string) (fp : string) : GitError :=
  new_GitError E.ObjectTypeAssertionInTreeFail
    (prop "type" ty (prop "oid" o {[ "entrypath" := fp ]})).

(** Lines 289-291: the executable bit comes from the tree, not from lstat. *)
Definition keep_executable (m : option string) (st : Stats) : Stats :=
  if strict_eq m (Some "100755")
  then {| st_mode := 493; st_size := st_size st; st_mtimeMs := st_mtimeMs st |}
  else st.

(** The [map] callback of the second walk, lines 246-307. *)
Definition materialize_map (env : Env) (dir : string)
    (t : WalkerEntry * WalkerEntry) (index : GitIndex) : M GitIndex :=
  let '(head, workdir) := t in
  if bool_decide (fullpath head = ".") then ret index
  else if negb (exists_ head) then ret index
  else
    head <- lift (populateStat head) ;;
    let filepath := dir +:+ "/" +:+ fullpath head in
    if strict_eq (type head) (Some "tree") then
      (if negb (exists_ workdir) then call env (EvMkdir filepath) else ret tt) ;;;
      ret index
    else if strict_eq (type head) (Some "commit") then
      emit (EvLog (LogError submodule_notice)) ;;; ret index
    else if strict_eq (type head) (Some "blob") then
      head <- lift (populateContent head) ;;
      head <- lift (populateHash head) ;;
      (if strict_eq (mode head) (Some "100644") then
         call env (EvWrite filepath (content head) None)
       else if strict_eq (mode head) (Some "100755") then
         call env (EvWrite filepath (content head) (Some 493))
       else if strict_eq (mode head) (Some "120000") then
         call env (EvWritelink filepath (content head))
       else throw (invalid_mode (mode head) (oid head))) ;;;
      stats <- ask (fun h => fs_lstat env h filepath) ;;
      let stats := keep_executable (mode head) stats in
      emit (EvIndexInsert (fullpath head) stats (oid head)) ;;;
      ret (Index.insert (fullpath head) stats (oid head) index)
    else
      throw (unknown_type (type head) (oid head) (fullpath head)).

Definition commit_not_fetched (ref oid : string) : GitError :=
  new_GitError E.CommitNotFetchedError {[ "ref" := ref; "oid" := oid ]}.

(** The [catch] of lines 309-316. *)
Definition relabel (ref oid : string) (err : GitError) : GitError :=
  if bool_decide (code err = E.ReadObjectFail)
     && bool_decide (data err !! "oid" = Some oid)
  then commit_not_fetched ref oid
  else err.

(** Lines 240-316: the second walk inside its [try]. *)
Definition materialize (env : Env) (dir gitdir ref oid : string)
    (index : GitIndex) : M GitIndex :=
  try_catch
    (fun h => walkBeta1 (walk_materialize env h dir gitdir ref)
                        (materialize_map env dir) index h)
    (fun err => throw (relabel ref oid err)).

(** Lines 201-319: the function handed to [GitIndexManager.acquire]. *)
Definition apply_plan (env : Env) (dir gitdir ref oid fullRef : string)
    (ops : list Operation) (index : GitIndex) : M GitIndex :=
  unlink_loop env dir ops ;;;
  write_loop env gitdir ops ;;;
  remove_index_entries env dir index ;;;
  emit EvIndexClear ;;;
  index' <- materialize env dir gitdir ref oid (Index.clear index) ;;
  call env (EvWrite (gitdir +:+ "/HEAD") (Some ("ref: " +:+ fullRef)) None) ;;;
  ret index'.

Module GitIndexManager.
(** Modelled from the spec: [GitIndexManager.acquire] is not among the
    sources.  "exclusive lock ..., load/deserialize, invoke [fn],
    persist result, release on every exit path including failure". *)
Definition acquire (env : Env) (file : string)
    (fn : GitIndex -> M GitIndex) : M unit :=
  emit (EvAcquire file) ;;;
  try_catch
    (index <- ask (fun h => index_load env h file) ;;
     index' <- fn index ;;
     call env (EvPersist file index'))
    (fun err => emit (EvRelease file) ;;; throw err) ;;;
  emit (EvRelease file).
End GitIndexManager.

(** ** checkout.js: the command *)

Record Args : Type := mkArgs {
  dir : string;
  gitdir : option string;    (* default: path.join(dir, '.git') *)
  remote : option string;    (* default: 'origin' *)
  ref : option string        (* no default: may be undefined *)
}.

(** Lines 39-68: the oid of [ref], and the new tracking branch when [ref]
    does not resolve. *)
Definition resolve_or_track (env : Env) (gitdir remote ref : string)
    : M string :=
  try_catch
    (ask (fun h => ref_resolve env h gitdir ref None))
    (fun _ =>
       let remoteRef := remote +:+ "/" +:+ ref in
       oid <- ask (fun h => ref_resolve env h gitdir remoteRef None) ;;
       call env (EvConfig ("branch." +:+ ref +:+ ".remote") remote) ;;;
       call env (EvConfig ("branch." +:+ ref +:+ ".merge")
                          ("refs/heads/" +:+ ref)) ;;;
       call env (EvWrite (gitdir +:+ "/refs/heads/" +:+ ref)
                         (Some (oid +:+ nl)) None) ;;;
       ret oid).

Definition missing_ref : GitError :=
  new_GitError E.MissingRequiredParameterError
               {[ "function" := "checkout"; "parameter" := "ref" ]}.

(** Lines 39-189: everything up to the two arrays being complete; the
    result is [oid], [fullRef] and the arrays. *)
Definition prepare (env : Env) (dir gitdir remote ref : string)
    : M (string * string * Plan) :=
  oid <- resolve_or_track env gitdir remote ref ;;
  fullRef <- ask (fun h => ref_expand env h gitdir ref) ;;
  currentRef <- currentBranch env gitdir true ;;
  plan <- classify env dir gitdir currentRef ref ;;
  emit (EvLog (LogOperations (operations plan))) ;;;
  emit (EvLog (LogErrors (errors plan))) ;;;
  ret (oid, fullRef, plan).

(** Lines 191-320: the gate on [errors] and the apply phase. *)
Definition finish (env : Env) (dir gitdir ref : string)
    (x : string * string * Plan) : M (option (list GitError)) :=
  let '(oid, fullRef, plan) := x in
  if (0 <? length (errors plan))%nat then ret (Some (errors plan))
  else
    GitIndexManager.acquire env (gitdir +:+ "/index")
      (apply_plan env dir gitdir ref oid fullRef (operations plan)) ;;;
    ret None.

Definition gitdir_of (env : Env) (a : Args) : string :=
  default (path_join env (dir a) ".git") (gitdir a).

Definition remote_of (a : Args) : string := default "origin" (remote a).

(** [checkout({ dir, gitdir, remote, ref })] from its [try] on, lines
    30-324, once the parameters are bound: [Some errors] is the array
    returned at line 193, [None] the [undefined] of a completed checkout.
    The binding of the parameters, which comes before the [try], is in
    [checkout_call] below. *)
Definition checkout (env : Env) (a : Args) : M (option (list GitError)) :=
  try_catch
    (match ref a with
     | None => throw missing_ref
     | Some ref =>
         x <- prepare env (dir a) (gitdir_of env a) (remote_of a) ref ;;
         finish env (dir a) (gitdir_of env a) ref x
     end)
    (fun err => throw (set_caller "git.checkout" err)).

(** Lines 22-29: the object that the caller passes.  Beside the four
    properties of [Args] it has [core] and [fs]. *)
Record Call : Type := mkCall {
  core : option string;      (* default: 'default' *)
  fs_passed : bool;          (* whether the property fs is there *)
  args : Args
}.

Definition core_of (c : Call) : string := default "default" (core c).

(** Line 26: the default of [fs], evaluated when the property is left
    out. *)
Definition default_fs (env : Env) (c : Call) : Result unit :=
  if fs_passed c then Ok tt
  else match cores_fs env (core_of c) with
       | Some err => Throw err
       | None => Ok tt
       end.

(** The call as a whole.  The defaults of the parameter list are
    evaluated in order, before the [try] of line 30 is entered, so that
    what they throw is not caught there.  [path.join(dir, '.git')] of
    line 25 does not throw on a [dir] that is a string, as it is in
    [Args]; the lookup of line 26 may. *)
Definition checkout_call (env : Env) (c : Call)
    : M (option (list GitError)) :=
  lift (default_fs env c) ;;;
  checkout env (args c).

(** ** The decision table of the spec *)

Inductive Outcome : Type :=
| no_op
| skip_submodule
| queue_unlink
| queue_write
| conflict_deleted
| conflict_added
| conflict_changed.

(** The table as the spec words it, over head (old tree), next (new
    tree) and workdir; [None] is "absent", [Some o] "present with hash
    [o]". *)
Definition spec_table (head next workdir : option string) : Outcome :=
  match head, next with
  | None, None => no_op
  | Some h, None =>
      if bool_decide (workdir = Some h) then queue_unlink else conflict_deleted
  | None, Some n =>
      match workdir with
      | None => queue_write
      | Some w => if bool_decide (w = n) then no_op else conflict_added
      end
  | Some h, Some n =>
      if bool_decide (h = n) then no_op
      else if bool_decide (workdir = Some n) then no_op
      else if bool_decide (workdir = Some h) then queue_write
      else conflict_changed
  end.

(** The table with the gates of lines 88-105 in front of it and with the
    row of line 109: a path already gone from the working directory. *)
Definition gated_table (fp : string) (next_type : option string)
    (head next workdir : option string) : Outcome :=
  if bool_decide (fp = ".") then no_op
  else if bool_decide (next_type = Some "tree") then no_op
  else if bool_decide (next_type = Some "commit") then
    match head, next with
    | None, None => no_op
    | _, _ => skip_submodule
    end
  else
    match head, next, workdir with
    | Some _, None, None => no_op
    | _, _, _ => spec_table head next workdir
    end.

(** What an outcome means for the two arrays. *)
Definition enact (ref : string) (workdir next : WalkerEntry) (o : Outcome)
    (p : Plan) : Plan :=
  match o with
  | no_op | skip_submodule => p
  | queue_unlink =>
      push_operation {| op := unlink; filepath := fullpath workdir;
                        op_oid := None; op_mode := None |} p
  | queue_write =>
      push_operation {| op := write; filepath := fullpath workdir;
                        op_oid := hash_of next;
                        op_mode := snd <$> stat_of next |} p
  | conflict_deleted =>
      push_error (conflict (deleted_message (fullpath workdir) ref)) p
  | conflict_added =>
      push_error (conflict (added_message (fullpath workdir) ref)) p
  | conflict_changed =>
      push_error (conflict (changed_message (fullpath workdir) ref)) p
  end.

Definition notices (o : Outcome) : list Event :=
  match o with
  | skip_submodule => [EvLog (LogError submodule_notice)]
  | _ => []
  end.

(** Hashing the entry does not throw. *)
Definition hashable (e : WalkerEntry) : bool :=
  match backing e with
  | None => true
  | Some b => match b_hash b with Ok _ => true | Throw _ => false end
  end.

(** Neither the stat nor the hash of the entry throws. *)
Definition readable (e : WalkerEntry) : bool :=
  match backing e with
  | None => true
  | Some b =>
      match b_stat b, b_hash b with
      | Ok _, Ok _ => true
      | _, _ => false
      end
  end.

(** "For every path visited, the reconciler decides exactly per the spec
    table", for one tuple. *)
Definition follows_spec_table (ref : string)
    (t : WalkerEntry * WalkerEntry * WalkerEntry * WalkerEntry)
    (p : Plan) (h : list Event) : Prop :=
  let '(workdir, stage, head, next) := t in
  classify_map ref t p h =
    ([], Ok (enact ref workdir next
               (spec_table (hash_of head) (hash_of next) (hash_of workdir)) p)).

(** The calls of the two removal loops. *)
Definition unlink_calls (dir : string) (ops : list Operation) : list Event :=
  (fun o => EvRm (dir +:+ "/" +:+ filepath o)) <$>
  filter (fun o => op o = unlink) ops.

Definition index_rm_calls (env : Env) (dir : string) (index : GitIndex)
    : list Event :=
  (fun entry => EvRm (path_join env dir (path entry))) <$> index.

(** ** A sample repository, for concrete runs *)

Module Sample.
Definition blob (o : string) : Backing :=
  {| b_stat := Ok ("blob", "100644"); b_hash := Ok o; b_content := Ok "data" |}.

Definition tree (o : string) : Backing :=
  {| b_stat := Ok ("tree", "040000"); b_hash := Ok o; b_content := Ok EmptyString |}.

Definition empty_plan : Plan := {| operations := []; errors := [] |}.

(** A directory that only the new tree has. *)
Definition dir_added
    : WalkerEntry * WalkerEntry * WalkerEntry * WalkerEntry :=
  (entry "src" None, entry "src" None, entry "src" None,
   entry "src" (Some (tree "t1"))).

(** A file of the old tree, absent from the new tree and already
    removed from the working directory. *)
Definition already_deleted
    : WalkerEntry * WalkerEntry * WalkerEntry * WalkerEntry :=
  (entry "a.txt" None, entry "a.txt" None,
   entry "a.txt" (Some (blob "h1")), entry "a.txt" None).

(** A file of the old tree, absent from the new tree and edited in the
    working directory. *)
Definition modified_then_deleted
    : WalkerEntry * WalkerEntry * WalkerEntry * WalkerEntry :=
  (entry "a.txt" (Some (blob "w1")), entry "a.txt" (Some (blob "h1")),
   entry "a.txt" (Some (blob "h1")), entry "a.txt" None).

(** A file edited in the working directory and, differently, in the new
    tree. *)
Definition edited_both
    : WalkerEntry * WalkerEntry * WalkerEntry * WalkerEntry :=
  (entry "a.txt" (Some (blob "w1")), entry "a.txt" (Some (blob "h1")),
   entry "a.txt" (Some (blob "h1")), entry "a.txt" (Some (blob "n1"))).

Definition exe (o : string) : Backing :=
  {| b_stat := Ok ("blob", "100755"); b_hash := Ok o; b_content := Ok "run" |}.

(** What [fs.lstat] reports in the sample repository, for every file:
    a regular file without the executable bit, mode 0o100644. *)
Definition stats0 : Stats :=
  {| st_mode := 33188; st_size := 4; st_mtimeMs := 1262356920000 |}.

Definition commit : string := "066daf8b7c79dca893d91ce0577dfab5ace80dbc".

Definition no_ref (r : string) : GitError :=
  new_GitError (E.Other "ResolveRefError") {[ "ref" := r ]}.

(** First walk with nothing in the way: [a.txt] leaves the tree
    unmodified, the executable [b.sh] is new. *)
Definition clean_walk
    : list (WalkerEntry * WalkerEntry * WalkerEntry * WalkerEntry) :=
  [ (entry "." (Some (tree "t0")), entry "." None,
     entry "." (Some (tree "t0")), entry "." (Some (tree "t1")));
    (entry "a.txt" (Some (blob "h1")), entry "a.txt" (Some (blob "h1")),
     entry "a.txt" (Some (blob "h1")), entry "a.txt" None);
    (entry "b.sh" None, entry "b.sh" None,
     entry "b.sh" None, entry "b.sh" (Some (exe "n2"))) ].

Definition new_tree : list (WalkerEntry * WalkerEntry) :=
  [ (entry "." (Some (tree "t1")), entry "." (Some (tree "t1")));
    (entry "b.sh" (Some (exe "n2")), entry "b.sh" None) ].

Definition missing (o : string) : GitError :=
  new_GitError E.ReadObjectFail {[ "oid" := o ]}.

(** A blob of the new tree whose object is missing: reading it fails. *)
Definition unread (o : string) : Backing :=
  {| b_stat := Ok ("blob", "100644"); b_hash := Ok o;
     b_content := Throw (missing o) |}.

Definition no_core (c : string) : GitError :=
  new_GitError (E.Other "CoreNotFound") {[ "core" := c ]}.

(** First walk of a checkout that only removes: [a.txt] leaves the tree
    unmodified, the executable [b.sh] is in both trees, unchanged. *)
Definition removal_walk
    : list (WalkerEntry * WalkerEntry * WalkerEntry * WalkerEntry) :=
  [ (entry "." (Some (tree "t0")), entry "." None,
     entry "." (Some (tree "t0")), entry "." (Some (tree "t1")));
    (entry "a.txt" (Some (blob "h1")), entry "a.txt" (Some (blob "h1")),
     entry "a.txt" (Some (blob "h1")), entry "a.txt" None);
    (entry "b.sh" (Some (exe "n2")), entry "b.sh" (Some (exe "n2")),
     entry "b.sh" (Some (exe "n2")), entry "b.sh" (Some (exe "n2"))) ].

(** A repository on branch [main] whose index is [index].  [feature] is
    a local branch when [local] holds and exists only as
    [origin/feature] otherwise; the two walks hand out [first] and
    [second]; only the core [default] is registered; no call fails. *)
Definition repo_with (index : GitIndex) (local : bool)
    (first : list (WalkerEntry * WalkerEntry * WalkerEntry * WalkerEntry))
    (second : list (WalkerEntry * WalkerEntry)) : Env :=
  {| io_fails := fun _ => None;
     ref_resolve := fun _ _ r _ =>
       if bool_decide (r = "HEAD") then Ok "refs/heads/main"
       else if bool_decide (r = "origin/feature") then Ok commit
       else if bool_decide (r = "feature") && local then Ok commit
       else Throw (no_ref r);
     ref_expand := fun _ _ r => Ok ("refs/heads/" +:+ r);
     fs_lstat := fun _ _ => Ok stats0;
     cores_fs := fun c =>
       if bool_decide (c = "default") then None else Some (no_core c);
     index_load := fun _ _ => Ok index;
     walk_classify := fun _ _ _ _ _ =>
       {| visited := first; failure := None |};
     walk_materialize := fun _ _ _ _ =>
       {| visited := second; failure := None |};
     path_join := fun a b => a +:+ "/" +:+ b;
     scope_filepath := None |}.

(** The same, with an index that lists [a.txt]. *)
Definition repo (local : bool)
    (first : list (WalkerEntry * WalkerEntry * WalkerEntry * WalkerEntry))
    (second : list (WalkerEntry * WalkerEntry)) : Env :=
  repo_with [ {| path := "a.txt"; ie_oid := Some "h1"; stats := stats0 |} ]
            local first second.

Definition args : Args :=
  {| dir := "/w"; gitdir := None; remote := None; ref := Some "feature" |}.
End Sample.

Module SampleRun.
Import Sample.

(** The checkout of [feature] in the sample repository: nothing
    conflicts, [a.txt] is to be removed and [b.sh] to be written. *)
Definition env : Env := repo true clean_walk new_tree.

Definition plan : Plan :=
  {| operations :=
       [ {| op := unlink; filepath := "a.txt";
            op_oid := None; op_mode := None |};
         {| op := write; filepath := "b.sh";
            op_oid := Some "n2"; op_mode := Some "100755" |} ];
     errors := [] |}.

Definition logs : list Event :=
  [ EvLog (LogOperations (operations plan)); EvLog (LogErrors []) ].

Definition old_index : GitIndex :=
  [ {| path := "a.txt"; ie_oid := Some "h1"; stats := stats0 |} ].

Definition exe_stats : Stats :=
  {| st_mode := 493; st_size := 4; st_mtimeMs := 1262356920000 |}.

Definition second_walk : list Event :=
  [ EvWrite "/w/b.sh" (Some "run") (Some 493);
    EvIndexInsert "b.sh" exe_stats (Some "n2") ].

Definition new_index : GitIndex :=
  [ {| path := "b.sh"; ie_oid := Some "n2"; stats := exe_stats |} ].

(** The calls of that checkout: it stops at the queued write. *)
Definition calls : list Event :=
  logs ++
  [ EvAcquire "/w/.git/index"; EvRm "/w/a.txt"; EvRelease "/w/.git/index" ].

(** What it throws. *)
Definition stopped : GitError :=
  {| code := E.ObjectTypeAssertionInTreeFail;
     data := {[ "oid" := "n2" ]};
     caller := Some "git.checkout" |}.
End SampleRun.

Module SampleDone.
Import Sample.

Definition old_index : GitIndex :=
  [ {| path := "a.txt"; ie_oid := Some "h1"; stats := stats0 |};
    {| path := "b.sh"; ie_oid := Some "n2"; stats := SampleRun.exe_stats |} ].

(** The checkout of [feature] in a repository where it only removes
    [a.txt]: [main] holds [a.txt] and [b.sh], [feature] holds [b.sh]
    alone, the working directory is unmodified.  No write is queued. *)
Definition env : Env := repo_with old_index true removal_walk new_tree.

Definition plan : Plan :=
  {| operations :=
       [ {| op := unlink; filepath := "a.txt";
            op_oid := None; op_mode := None |} ];
     errors := [] |}.

Definition logs : list Event :=
  [ EvLog (LogOperations (operations plan)); EvLog (LogErrors []) ].

Definition calls : list Event :=
  logs ++
  [ EvAcquire "/w/.git/index"; EvRm "/w/a.txt";
    EvRm "/w/a.txt"; EvRm "/w/b.sh"; EvIndexClear ] ++
  SampleRun.second_walk ++
  [ EvWrite "/w/.git/HEAD" (Some "ref: refs/heads/feature") None;
    EvPersist "/w/.git/index" SampleRun.new_index;
    EvRelease "/w/.git/index" ].
End SampleDone.

(** ** Vocabulary of the statements *)

(** A call to [console.log]: the only call that changes nothing. *)
Definition is_log (ev : Event) : Prop :=
  match ev with
  | EvLog _ => True
  | _ => False
  end.

(** A computation that calls nothing but [console.log]. *)
Definition quiet {A} (c : M A) : Prop := forall h, Forall is_log (c h).1.

(** The calls that set up a new remote tracking branch, lines 54-67. *)
Definition tracking_setup (gitdir remote ref oid : string) : list Event :=
  [ EvConfig ("branch." +:+ ref +:+ ".remote") remote;
    EvConfig ("branch." +:+ ref +:+ ".merge") ("refs/heads/" +:+ ref);
    EvWrite (gitdir +:+ "/refs/heads/" +:+ ref) (Some (oid +:+ nl)) None ].

(** The collaborators carry out the mutating calls [evs], made one after
    the other from the history [h] on. *)
Fixpoint accepted (env : Env) (h : list Event) (evs : list Event) : Prop :=
  match evs with
  | [] => True
  | ev :: r => io_fails env (h ++ [ev]) = None /\ accepted env (h ++ [ev]) r
  end.

(** "A checkout that returns a list of conflicts has performed no
    mutation": every call it made is a [console.log]. *)
Definition no_mutation_on_conflict (env : Env) (a : Args) (h : list Event)
    : Prop :=
  forall evs errs,
    checkout env a h = (evs, Ok (Some errs)) -> Forall is_log evs.

(** The call that writes a blob of mode [m] and content [c] to [fp]. *)
Definition blob_call (fp m c : string) : option Event :=
  if bool_decide (m = "100644") then Some (EvWrite fp (Some c) None)
  else if bool_decide (m = "100755") then Some (EvWrite fp (Some c) (Some 493))
  else if bool_decide (m = "120000") then Some (EvWritelink fp (Some c))
  else None.

(** "A blob is inserted into the index with its post-write lstat
    result": whatever stats the callback inserts is an answer of
    [fs.lstat] for that file. *)
Definition inserts_lstat_result (env : Env) (dir : string)
    (t : WalkerEntry * WalkerEntry) (index : GitIndex) (h : list Event)
    : Prop :=
  forall evs index' fp st o,
    materialize_map env dir t index h = (evs, Ok index') ->
    EvIndexInsert fp st o ∈ evs ->
    exists hist, fs_lstat env hist (dir +:+ "/" +:+ fp) = Ok st.

Definition index_file (gitdir : string) : string := gitdir +:+ "/index".

(** The first queued write, if there is one. *)
Fixpoint first_write (ops : list Operation) : option Operation :=
  match ops with
  | [] => None
  | o :: r => if bool_decide (op o = write) then Some o else first_write r
  end.

(** The call of line 318. *)
Definition head_write (gitdir fullRef : string) : Event :=
  EvWrite (gitdir +:+ "/HEAD") (Some ("ref: " +:+ fullRef)) None.

(** The content that the symbolic loose-ref format asks for:
    [ref: <name>] followed by a newline. *)
Definition symbolic_ref (name : string) : string := "ref: " +:+ name +:+ nl.

(** "After a successful checkout HEAD holds [ref: refs/heads/<ref>]
    followed by a newline, written last before the lock is released." *)
Definition head_rewritten_with_newline (env : Env) (a : Args)
    (h : list Event) : Prop :=
  forall evs,
    checkout env a h = (evs, Ok None) ->
    exists pre r index',
      ref a = Some r
      /\ evs = pre ++
           [ EvWrite (gitdir_of env a +:+ "/HEAD")
                     (Some (symbolic_ref ("refs/heads/" +:+ r))) None;
             EvPersist (index_file (gitdir_of env a)) index';
             EvRelease (index_file (gitdir_of env a)) ].


(** ** Vocabulary of the further statements *)

(** A computation all of whose calls satisfy [P]. *)
Definition emits {A} (P : Event -> Prop) (c : M A) : Prop :=
  forall h, Forall P (c h).1.

(** Any call but one to the config store. *)
Definition not_config (ev : Event) : Prop :=
  match ev with
  | EvConfig _ _ => False
  | _ => True
  end.

(** The calls that lines 39-189 can make: [console.log], the two config
    keys of the tracking branch and the write of its ref file. *)
Definition is_setup (gitdir ref : string) (ev : Event) : Prop :=
  match ev with
  | EvLog _ => True
  | EvConfig k _ =>
      k = "branch." +:+ ref +:+ ".remote" \/ k = "branch." +:+ ref +:+ ".merge"
  | EvWrite f _ _ => f = gitdir +:+ "/refs/heads/" +:+ ref
  | _ => False
  end.

(** The shape of a queued operation: an unlink carries neither oid nor
    mode, a write carries both. *)
Definition op_shaped (o : Operation) : Prop :=
  match op o with
  | unlink => op_oid o = None /\ op_mode o = None
  | write => is_Some (op_oid o) /\ is_Some (op_mode o)
  end.

(** The decision for one tuple of the first walk. *)
Definition decide_tuple
    (t : WalkerEntry * WalkerEntry * WalkerEntry * WalkerEntry) : Outcome :=
  let '(workdir, stage, head, next) := t in
  gated_table (fullpath workdir) (fst <$> stat_of next)
    (hash_of head) (hash_of next) (hash_of workdir).

Definition tuple_readable
    (t : WalkerEntry * WalkerEntry * WalkerEntry * WalkerEntry) : bool :=
  let '(workdir, stage, head, next) := t in
  hashable workdir && hashable head && readable next.

(** The two arrays after the decisions for the tuples [l], taken in
    order from the arrays [p]. *)
Fixpoint collect (ref : string)
    (l : list (WalkerEntry * WalkerEntry * WalkerEntry * WalkerEntry))
    (p : Plan) : Plan :=
  match l with
  | [] => p
  | t :: r =>
      let '(workdir, stage, head, next) := t in
      collect ref r (enact ref workdir next (decide_tuple t) p)
  end.

Fixpoint all_notices
    (l : list (WalkerEntry * WalkerEntry * WalkerEntry * WalkerEntry))
    : list Event :=
  match l with
  | [] => []
  | t :: r => notices (decide_tuple t) ++ all_notices r
  end.

(** The conflict of an outcome, if it is one. *)
Definition conflict_of (ref : string) (fp : string) (o : Outcome)
    : list GitError :=
  match o with
  | conflict_deleted => [conflict (deleted_message fp ref)]
  | conflict_added => [conflict (added_message fp ref)]
  | conflict_changed => [conflict (changed_message fp ref)]
  | _ => []
  end.

Fixpoint all_conflicts (ref : string)
    (l : list (WalkerEntry * WalkerEntry * WalkerEntry * WalkerEntry))
    : list GitError :=
  match l with
  | [] => []
  | t :: r =>
      conflict_of ref (fullpath t.1.1.1) (decide_tuple t) ++ all_conflicts ref r
  end.

(** A tuple of the second walk that is a blob of the new tree. *)
Definition tracked_blob (t : WalkerEntry * WalkerEntry) : bool :=
  negb (bool_decide (fullpath t.1 = ".")) && exists_ t.1
  && bool_decide (fst <$> stat_of t.1 = Some "blob").

(** The path and oid of every [index.insert] among the calls. *)
Fixpoint inserts (evs : list Event) : list (string * option string) :=
  match evs with
  | [] => []
  | EvIndexInsert f _ o :: r => (f, o) :: inserts r
  | _ :: r => inserts r
  end.



(** ** Further sample repositories *)

Module SampleX.
(** A repository described by what its refs resolve to, which calls
    fail, and what the two walks hand out. *)
Definition repo_of (resolve : string -> Result string)
    (fails : list Event -> option GitError)
    (first : WalkPlan (WalkerEntry * WalkerEntry * WalkerEntry * WalkerEntry))
    (second : WalkPlan (WalkerEntry * WalkerEntry)) : Env :=
  {| io_fails := fails;
     ref_resolve := fun _ _ r _ => resolve r;
     ref_expand := fun _ _ r => Ok ("refs/heads/" +:+ r);
     fs_lstat := fun _ _ => Ok Sample.stats0;
     cores_fs := fun c =>
       if bool_decide (c = "default") then None
       else Some (Sample.no_core c);
     index_load := fun _ _ => Ok SampleRun.old_index;
     walk_classify := fun _ _ _ _ _ => first;
     walk_materialize := fun _ _ _ _ => second;
     path_join := fun a b => a +:+ "/" +:+ b;
     scope_filepath := None |}.

Definition first_walk
    : WalkPlan (WalkerEntry * WalkerEntry * WalkerEntry * WalkerEntry) :=
  {| visited := Sample.clean_walk; failure := None |}.

Definition second_walk : WalkPlan (WalkerEntry * WalkerEntry) :=
  {| visited := Sample.new_tree; failure := None |}.

(** [feature] is a branch, HEAD is unreadable. *)
Definition headless : Env :=
  repo_of (fun r => if bool_decide (r = "feature") then Ok Sample.commit
                    else Throw (Sample.no_ref r))
          (fun _ => None) first_walk second_walk.

(** No ref resolves. *)
Definition refless : Env :=
  repo_of (fun r => Throw (Sample.no_ref r)) (fun _ => None)
          first_walk second_walk.

Definition read_only : GitError :=
  new_GitError (E.Other "EROFS") {[ "syscall" := "open" ]}.

(** [feature] exists only as [origin/feature], and the config store
    refuses every write. *)
Definition config_refused : Env :=
  repo_of (fun r => if bool_decide (r = "origin/feature") then Ok Sample.commit
                    else if bool_decide (r = "HEAD") then Ok "refs/heads/main"
                    else Throw (Sample.no_ref r))
          (fun h => match last h with
                    | Some (EvConfig _ _) => Some read_only
                    | _ => None
                    end)
          first_walk second_walk.

(** A file whose content cannot be hashed. *)
Definition unhashable : Backing :=
  {| b_stat := Ok ("blob", "100644"); b_hash := Throw read_only;
     b_content := Throw read_only |}.

(** A file that both trees hold with the same oid, under a working
    directory file that cannot be hashed. *)
Definition untouched_by_switch
    : WalkerEntry * WalkerEntry * WalkerEntry * WalkerEntry :=
  (entry "big.bin" (Some unhashable), entry "big.bin" None,
   entry "big.bin" (Some (Sample.blob "h7")),
   entry "big.bin" (Some (Sample.blob "h7"))).

(** Two conflicting paths around a clean one. *)
Definition two_conflicts
    : list (WalkerEntry * WalkerEntry * WalkerEntry * WalkerEntry) :=
  [ Sample.edited_both;
    (entry "b.sh" None, entry "b.sh" None,
     entry "b.sh" None, entry "b.sh" (Some (Sample.exe "n2")));
    (entry "z.txt" (Some (Sample.blob "w9")), entry "z.txt" None,
     entry "z.txt" (Some (Sample.blob "h9")), entry "z.txt" None) ].

(** The first walk fails on a tree it cannot read. *)
Definition broken_walk : Env :=
  repo_of (fun r => if bool_decide (r = "HEAD") then Ok "refs/heads/main"
                    else Ok Sample.commit)
          (fun _ => None)
          {| visited := [Sample.edited_both];
             failure := Some (Sample.missing "t1") |}
          second_walk.

Definition submodule : Backing :=
  {| b_stat := Ok ("commit", "160000"); b_hash := Ok "s1";
     b_content := Throw (Sample.missing "s1") |}.

(** The blob of [b.sh], missing from the object store. *)
Definition lost : Backing :=
  {| b_stat := Ok ("blob", "100755"); b_hash := Ok "n2";
     b_content := Throw (Sample.missing "n2") |}.

(** [feature] only removes [a.txt], and the blob of [b.sh], which both
    trees hold, was not fetched. *)
Definition unfetched : Env :=
  Sample.repo_with SampleDone.old_index true
    [ (entry "a.txt" (Some (Sample.blob "h1")),
       entry "a.txt" (Some (Sample.blob "h1")),
       entry "a.txt" (Some (Sample.blob "h1")), entry "a.txt" None);
      (entry "b.sh" (Some (Sample.exe "n2")),
       entry "b.sh" (Some (Sample.exe "n2")),
       entry "b.sh" (Some lost), entry "b.sh" (Some lost)) ]
    [ (entry "b.sh" (Some lost), entry "b.sh" None) ].
End SampleX.

(** * Properties *)

(** ** The monad *)

Lemma bind_run {A B} (c : M A) (k : A -> M B) h :
  bind c k h =
    match c h with
    | (e1, Ok a) => (e1 ++ (k a (h ++ e1)).1, (k a (h ++ e1)).2)
    | (e1, Throw err) => (e1, Throw err)
    end.
Proof.
  unfold bind. destruct (c h) as [e1 [a|err]]; [|done].
  by destruct (k a (h ++ e1)).
Qed.

Lemma bind_ok {A B} (c : M A) (k : A -> M B) h e1 a :
  c h = (e1, Ok a) ->
  bind c k h = (e1 ++ (k a (h ++ e1)).1, (k a (h ++ e1)).2).
Proof. intros Hc. by rewrite bind_run, Hc. Qed.

Lemma bind_throw {A B} (c : M A) (k : A -> M B) h e1 err :
  c h = (e1, Throw err) -> bind c k h = (e1, Throw err).
Proof. intros Hc. by rewrite bind_run, Hc. Qed.

Lemma bind_lift_ok {A B} (a : A) (k : A -> M B) h :
  bind (lift (Ok a)) k h = k a h.
Proof.
  unfold bind, lift. rewrite app_nil_r. by destruct (k a h).
Qed.

(** ** The removal loops never throw *)

Lemma unlink_loop_run env dir ops h :
  unlink_loop env dir ops h = (unlink_calls dir ops, Ok tt).
Proof.
  revert h. induction ops as [|o ops IH]; intros h; [done|].
  unfold unlink_loop, unlink_calls in *. cbn [for_of].
  rewrite bind_run, filter_cons.
  destruct (decide (op o = unlink)) as [Hu|Hu].
  - rewrite (bool_decide_eq_true_2 _ Hu).
    unfold try_catch, call; cbn.
    destruct (io_fails env _); cbn; rewrite ?app_nil_r, IH; done.
  - rewrite (bool_decide_eq_false_2 _ Hu). cbn. by rewrite IH.
Qed.

Lemma remove_index_entries_run env dir index h :
  remove_index_entries env dir index h = (index_rm_calls env dir index, Ok tt).
Proof.
  revert h. induction index as [|x index IH]; intros h; [done|].
  unfold remove_index_entries, index_rm_calls in *. cbn [for_of].
  rewrite bind_run. unfold try_catch, call; cbn.
  destruct (io_fails env _); cbn; rewrite ?app_nil_r, IH; done.
Qed.

(** C10. Whatever the file system answers to [fs.rm], also a failure at
    every single call, the loop over the queued unlinks and the loop over
    the old index entries complete without throwing, record no error, and
    have called [fs.rm] for every queued unlink, respectively for every
    entry of the old index, in order. *)
Theorem removal_failures_swallowed env dir ops index h :
  unlink_loop env dir ops h =
    ((fun o => EvRm (dir +:+ "/" +:+ filepath o)) <$>
       filter (fun o => op o = unlink) ops, Ok tt)
  /\ remove_index_entries env dir index h =
    ((fun entry => EvRm (path_join env dir (path entry))) <$> index, Ok tt).
Proof.
  split; [apply unlink_loop_run | apply remove_index_entries_run].
Qed.

(** ** The classification callback *)

Ltac split_entry e :=
  let fp := fresh "fp" in
  destruct e as [fp [[[[? ?]|?] [?|?] ?]|] ? ? ?].

Ltac split_hashed e :=
  let fp := fresh "fp" in
  destruct e as [fp [[? [?|?] ?]|] ? ? ?].

Ltac split_flags :=
  repeat match goal with
         | H : context [if ?b then _ else _] |- _ => is_var b; destruct b
         end.

(** What the callback of the first walk does with one tuple, when the
    hashes of workdir and head and the stat and hash of next can be
    read. *)
Lemma classify_map_run ref workdir stage head next p h :
  hashable workdir -> hashable head -> readable next ->
  classify_map ref (workdir, stage, head, next) p h =
    (notices (gated_table (fullpath workdir) (fst <$> stat_of next)
                (hash_of head) (hash_of next) (hash_of workdir)),
     Ok (enact ref workdir next
           (gated_table (fullpath workdir) (fst <$> stat_of next)
              (hash_of head) (hash_of next) (hash_of workdir)) p)).
Proof.
  intros Hw Hh Hn.
  split_hashed workdir; try done; split_hashed head; try done;
  split_entry next; try done;
  unfold classify_map, gated_table, spec_table, strict_eq, exists_,
    type, mode, oid, stat_of, hash_of, populateStat, populateHash; cbn;
  repeat (case_bool_decide; cbn; simplify_eq; try done);
  split_flags; simplify_eq.
Qed.

Lemma readable_absent e :
  readable e -> hash_of e = None -> stat_of e = None.
Proof.
  unfold readable, hash_of, stat_of. destruct (backing e) as [b|]; [|done].
  by destruct (b_stat b), (b_hash b).
Qed.

Lemma hashable_exists e :
  hashable e -> exists_ e = bool_decide (is_Some (hash_of e)).
Proof.
  unfold hashable, hash_of, exists_. destruct (backing e) as [b|].
  - by destruct (b_hash b).
  - intros _. symmetry. apply bool_decide_eq_false_2. by intros [? ?].
Qed.

Lemma gated_table_spec_table fp ty head next workdir :
  fp <> "." -> ty <> Some "tree" -> ty <> Some "commit" ->
  ~ (is_Some head /\ next = None /\ workdir = None) ->
  gated_table fp ty head next workdir = spec_table head next workdir.
Proof.
  intros Hfp Ht Hc Hrow. unfold gated_table.
  rewrite !bool_decide_eq_false_2 by done.
  destruct head as [hd|], next as [nx|], workdir as [w|]; try done.
  destruct Hrow. eauto.
Qed.

(** C1, as amended.  For a tuple whose hashes, and the stat of next, can
    be read the callback decides by [gated_table]: nothing is queued for
    the root ["."] and for a path that is a directory in the new tree; a
    submodule in the new tree is logged and nothing is queued; a path of
    the old tree that is absent from the new tree and from the working
    directory queues nothing; every other path is decided exactly by the
    table of the spec. *)
Theorem classify_map_decides ref workdir stage head next p h :
  hashable workdir -> hashable head -> readable next ->
  let ty := fst <$> stat_of next in
  let o := gated_table (fullpath workdir) ty
             (hash_of head) (hash_of next) (hash_of workdir) in
  classify_map ref (workdir, stage, head, next) p h
    = (notices o, Ok (enact ref workdir next o p))
  /\ (fullpath workdir = "." \/ ty = Some "tree" -> o = no_op)
  /\ (ty = Some "commit" -> o = no_op \/ o = skip_submodule)
  /\ (is_Some (hash_of head) -> hash_of next = None ->
      hash_of workdir = None -> o = no_op)
  /\ (fullpath workdir <> "." -> ty <> Some "tree" -> ty <> Some "commit" ->
      ~ (is_Some (hash_of head) /\ hash_of next = None
         /\ hash_of workdir = None) ->
      o = spec_table (hash_of head) (hash_of next) (hash_of workdir)).
Proof.
  intros Hw Hh Hn ty o. split; [by apply classify_map_run|].
  subst o. unfold gated_table. repeat split.
  - intros [Hfp|Hty]; repeat case_bool_decide; done.
  - intros Hty. repeat case_bool_decide; try done; try (by left).
    destruct (hash_of head), (hash_of next); auto.
  - intros [hd Hhd] Hnx Hwd.
    assert (ty = None) as -> by (subst ty; by rewrite readable_absent).
    rewrite Hhd, Hnx, Hwd. repeat case_bool_decide; done.
  - intros. by apply gated_table_spec_table.
Qed.

Lemma classify_map_decides_witness :
  classify_map "feature" Sample.edited_both Sample.empty_plan []
  = ([], Ok (push_error
               (conflict (changed_message "a.txt" "feature"))
               Sample.empty_plan)).
Proof.
  pose proof (classify_map_decides "feature"
    (entry "a.txt" (Some (Sample.blob "w1")))
    (entry "a.txt" (Some (Sample.blob "h1")))
    (entry "a.txt" (Some (Sample.blob "h1")))
    (entry "a.txt" (Some (Sample.blob "n1")))
    Sample.empty_plan [] I I I) as [Hrun _].
  exact Hrun.
Defined.

(** C1, as stated, fails: a directory that only the new tree has queues
    no write, and a path of the old tree that is gone from the new tree
    and from the working directory records no conflict. *)
Lemma classify_map_not_spec_table :
  ~ follows_spec_table "feature" Sample.dir_added Sample.empty_plan []
  /\ ~ follows_spec_table "feature" Sample.already_deleted Sample.empty_plan [].
Proof.
  split; intros H; vm_compute in H; discriminate H.
Qed.

(** C3. A path of the old tree that the new tree does not have: nothing is
    queued when the working directory does not have it either; an
    [unlink] is queued when the hash of the working-directory file is
    head's oid; a conflict is recorded, and nothing queued, when the file
    is there with another hash.  So an [unlink] is queued only for an
    unmodified file. *)
Theorem deleted_path_policy ref workdir stage head next p h :
  exists_ head = true -> exists_ next = false ->
  fullpath workdir <> "." ->
  hashable workdir -> hashable head ->
  exists p',
    classify_map ref (workdir, stage, head, next) p h = ([], Ok p')
    /\ (exists_ workdir = false -> p' = p)
    /\ (exists_ workdir = true -> hash_of workdir = hash_of head ->
        p' = push_operation {| op := unlink; filepath := fullpath workdir;
                               op_oid := None; op_mode := None |} p)
    /\ (exists_ workdir = true -> hash_of workdir <> hash_of head ->
        p' = push_error
               (conflict (deleted_message (fullpath workdir) ref)) p)
    /\ (operations p' <> operations p ->
        exists_ workdir = true /\ hash_of workdir = hash_of head).
Proof.
  intros Hhd Hnx Hfp Hw Hh.
  assert (readable next) as Hn.
  { unfold readable, exists_ in *. by destruct (backing next). }
  rewrite (classify_map_run ref workdir stage head next p h Hw Hh Hn).
  assert (hash_of next = None /\ stat_of next = None) as [-> ->].
  { unfold hash_of, stat_of, exists_ in *. by destruct (backing next). }
  assert (exists hd, hash_of head = Some hd) as [hd Ehd].
  { unfold hash_of, hashable, exists_ in *.
    destruct (backing head) as [b|]; [|done].
    destruct (b_hash b); try done. eauto. }
  pose proof (hashable_exists workdir Hw) as Ewd.
  rewrite Ewd, Ehd. unfold gated_table, spec_table. cbn.
  rewrite (bool_decide_eq_false_2 _ Hfp).
  rewrite (bool_decide_eq_false_2 (None = Some "tree")) by discriminate.
  rewrite (bool_decide_eq_false_2 (None = Some "commit")) by discriminate.
  destruct (hash_of workdir) as [w|]; cbn.
  - destruct (decide (w = hd)) as [->|Hne].
    + rewrite bool_decide_eq_true_2 by done. cbn.
      eexists; split; [reflexivity|]. repeat split; try done.
    + rewrite bool_decide_eq_false_2 by congruence. cbn.
      eexists; split; [reflexivity|]. repeat split; try done.
      intros _ ?; congruence.
  - eexists; split; [reflexivity|]. repeat split; try done.
Qed.

Lemma deleted_path_policy_witness :
  exists p',
    classify_map "feature" Sample.modified_then_deleted Sample.empty_plan []
      = ([], Ok p')
    /\ errors p' = [conflict (deleted_message "a.txt" "feature")]
    /\ operations p' = [].
Proof.
  destruct (deleted_path_policy "feature"
    (entry "a.txt" (Some (Sample.blob "w1")))
    (entry "a.txt" (Some (Sample.blob "h1")))
    (entry "a.txt" (Some (Sample.blob "h1")))
    (entry "a.txt" None)
    Sample.empty_plan [] eq_refl eq_refl
    ltac:(discriminate) I I) as (p' & Hrun & _ & _ & Hconflict & _).
  exists p'. split; [exact Hrun|].
  rewrite (Hconflict eq_refl ltac:(discriminate)). split; reflexivity.
Defined.

(** ** Shape of the apply phase *)

Lemma try_catch_run {A} (c : M A) (handler : GitError -> M A) h :
  try_catch c handler h =
    match c h with
    | (e1, Ok a) => (e1, Ok a)
    | (e1, Throw err) =>
        (e1 ++ (handler err (h ++ e1)).1, (handler err (h ++ e1)).2)
    end.
Proof.
  unfold try_catch. destruct (c h) as [e1 [a|err]]; [done|].
  by destruct (handler err (h ++ e1)).
Qed.

Lemma bind_then {A B} (c : M A) (k : A -> M B) h e1 a e2 r :
  c h = (e1, Ok a) -> k a (h ++ e1) = (e2, r) ->
  bind c k h = (e1 ++ e2, r).
Proof. intros Hc Hk. by rewrite (bind_ok _ _ _ _ _ Hc), Hk. Qed.

Lemma emit_run ev h : emit ev h = ([ev], Ok tt).
Proof. done. Qed.

Lemma call_run env ev h :
  call env ev h = ([ev], match io_fails env (h ++ [ev]) with
                         | None => Ok tt
                         | Some err => Throw err
                         end).
Proof. done. Qed.

Ltac assoc_r := rewrite <- ?(assoc_L (++)).

Lemma apply_plan_run env dir gitdir ref oid fullRef ops index h :
  apply_plan env dir gitdir ref oid fullRef ops index h =
    let u := unlink_calls dir ops in
    match write_loop env gitdir ops (h ++ u) with
    | (ew, Throw err) => (u ++ ew, Throw err)
    | (ew, Ok _) =>
        let x := index_rm_calls env dir index ++ [EvIndexClear] in
        match materialize env dir gitdir ref oid [] (h ++ u ++ ew ++ x) with
        | (em, Throw err) => (u ++ ew ++ x ++ em, Throw err)
        | (em, Ok index') =>
            let hw := EvWrite (gitdir +:+ "/HEAD")
                              (Some ("ref: " +:+ fullRef)) None in
            (u ++ ew ++ x ++ em ++ [hw],
             match io_fails env (h ++ u ++ ew ++ x ++ em ++ [hw]) with
             | None => Ok index'
             | Some err => Throw err
             end)
        end
    end.
Proof.
  cbn zeta. unfold apply_plan.
  destruct (write_loop env gitdir ops (h ++ unlink_calls dir ops))
    as [ew [[]|err]] eqn:Hw.
  - assoc_r.
    destruct (materialize _ _ _ _ _ _ _) as [em [index'|err]] eqn:Hm.
    + assoc_r.
      eapply bind_then; [apply unlink_loop_run|].
      eapply bind_then; [exact Hw|].
      eapply bind_then; [apply remove_index_entries_run|].
      eapply bind_then; [apply emit_run|].
      eapply bind_then; [assoc_r; exact Hm|].
      rewrite bind_run, call_run. assoc_r.
      by destruct (io_fails env _).
    + assoc_r.
      eapply bind_then; [apply unlink_loop_run|].
      eapply bind_then; [exact Hw|].
      eapply bind_then; [apply remove_index_entries_run|].
      eapply bind_then; [apply emit_run|].
      apply bind_throw. assoc_r. exact Hm.
  - eapply bind_then; [apply unlink_loop_run|].
    by apply bind_throw.
Qed.

Lemma acquire_run env file fn h :
  GitIndexManager.acquire env file fn h =
    match index_load env (h ++ [EvAcquire file]) file with
    | Throw err => ([EvAcquire file; EvRelease file], Throw err)
    | Ok index =>
        match fn index (h ++ [EvAcquire file]) with
        | (eb, Throw err) =>
            (EvAcquire file :: eb ++ [EvRelease file], Throw err)
        | (eb, Ok index') =>
            (EvAcquire file :: eb ++ [EvPersist file index'; EvRelease file],
             match io_fails env
                     (h ++ EvAcquire file :: eb ++ [EvPersist file index'])
             with
             | None => Ok tt
             | Some err => Throw err
             end)
        end
    end.
Proof.
  unfold GitIndexManager.acquire, bind, try_catch, emit, ask, call, throw.
  cbn.
  destruct (index_load env (h ++ [EvAcquire file]) file) as [index|err];
    cbn; [|done].
  rewrite app_nil_r.
  destruct (fn index (h ++ [EvAcquire file])) as [eb [index'|err]]; cbn.
  - assoc_r. cbn.
    destruct (io_fails env _); cbn; assoc_r; cbn; by rewrite ?app_nil_r.
  - by rewrite ?app_nil_r.
Qed.

Lemma checkout_run env a r h :
  ref a = Some r ->
  checkout env a h =
    match prepare env (dir a) (gitdir_of env a) (remote_of a) r h with
    | (e1, Throw err) => (e1, Throw (set_caller "git.checkout" err))
    | (e1, Ok (oid, fullRef, plan)) =>
        if (0 <? length (errors plan))%nat then (e1, Ok (Some (errors plan)))
        else
          match GitIndexManager.acquire env (gitdir_of env a +:+ "/index")
                  (apply_plan env (dir a) (gitdir_of env a) r oid fullRef
                     (operations plan)) (h ++ e1)
          with
          | (ea, Ok _) => (e1 ++ ea, Ok None)
          | (ea, Throw err) =>
              (e1 ++ ea, Throw (set_caller "git.checkout" err))
          end
    end.
Proof.
  intros Hr. unfold checkout. rewrite Hr, try_catch_run, bind_run.
  destruct (prepare _ _ _ _ _ _) as [e1 [[[oid fullRef] plan]|err]].
  - unfold finish. destruct (0 <? length (errors plan))%nat.
    + cbn. by rewrite app_nil_r.
    + rewrite bind_run.
      destruct (GitIndexManager.acquire _ _ _ _) as [ea [[]|err]]; cbn;
        by rewrite ?app_nil_r.
  - cbn. by rewrite app_nil_r.
Qed.

(** ** The first walk only logs *)

Lemma quiet_ret {A} (a : A) : quiet (ret a).
Proof. intros h. constructor. Qed.

Lemma quiet_throw {A} err : quiet (@throw A err).
Proof. intros h. constructor. Qed.

Lemma quiet_lift {A} (r : Result A) : quiet (lift r).
Proof. intros h. constructor. Qed.

Lemma quiet_ask {A} (f : list Event -> Result A) : quiet (ask f).
Proof. intros h. constructor. Qed.

Lemma quiet_log item : quiet (emit (EvLog item)).
Proof. intros h. by repeat constructor. Qed.

Lemma quiet_bind {A B} (c : M A) (k : A -> M B) :
  quiet c -> (forall a, quiet (k a)) -> quiet (bind c k).
Proof.
  intros Hc Hk h. rewrite bind_run. specialize (Hc h).
  destruct (c h) as [e1 [a|err]]; cbn in *; [|done].
  apply Forall_app. split; [done|apply Hk].
Qed.

Lemma quiet_try_catch {A} (c : M A) handler :
  quiet c -> (forall err, quiet (handler err)) -> quiet (try_catch c handler).
Proof.
  intros Hc Hk h. rewrite try_catch_run. specialize (Hc h).
  destruct (c h) as [e1 [a|err]]; cbn in *; [done|].
  apply Forall_app. split; [done|apply Hk].
Qed.

Lemma quiet_if {A} (b : bool) (c1 c2 : M A) :
  quiet c1 -> quiet c2 -> quiet (if b then c1 else c2).
Proof. by destruct b. Qed.

Create HintDb quiet.
#[local] Hint Resolve quiet_ret quiet_throw quiet_lift quiet_ask quiet_log
  quiet_bind quiet_try_catch quiet_if : quiet.

Lemma classify_map_quiet ref t p : quiet (classify_map ref t p).
Proof.
  destruct t as [[[workdir stage] head] next]. unfold classify_map.
  repeat (first [ apply quiet_if | apply quiet_bind; [|intros ?]
                | solve [auto with quiet] ]).
Qed.

Lemma walk_entries_quiet {T S} (map : T -> S -> M S) l s :
  (forall t s, quiet (map t s)) -> quiet (walk_entries map l s).
Proof.
  intros Hmap. revert s.
  induction l as [|t l IH]; intros s; cbn [walk_entries]; auto with quiet.
Qed.

Lemma classify_quiet env dir gitdir currentRef ref :
  quiet (classify env dir gitdir currentRef ref).
Proof.
  intros h. unfold classify, walkBeta1.
  apply quiet_bind.
  - apply walk_entries_quiet, classify_map_quiet.
  - intros s. destruct (failure _); auto with quiet.
Qed.

Lemma currentBranch_quiet env gitdir fullname :
  quiet (currentBranch env gitdir fullname).
Proof.
  unfold currentBranch. apply quiet_try_catch; [|auto with quiet].
  apply quiet_bind; [auto with quiet|]. intros ?. auto with quiet.
Qed.

Lemma quiet_nil {A} (c : M A) h e r :
  quiet c -> c h = (e, r) -> Forall is_log e.
Proof. intros Hq Hc. specialize (Hq h). by rewrite Hc in Hq. Qed.


(** ** The remote tracking branch *)

Lemma resolve_or_track_events env gitdir remote ref h et oid :
  resolve_or_track env gitdir remote ref h = (et, Ok oid) ->
  et = [] \/ et = tracking_setup gitdir remote ref oid.
Proof.
  unfold resolve_or_track, tracking_setup, try_catch, bind, ask, call, ret.
  cbn. destruct (ref_resolve env h gitdir ref None); cbn.
  - intros [= <- _]. by left.
  - destruct (ref_resolve env _ gitdir _ None); cbn; [|done].
    repeat (destruct (io_fails env _); cbn; [done|]).
    intros [= <- <-]. by right.
Qed.

Lemma resolve_or_track_new env gitdir remote ref h err oid :
  ref_resolve env h gitdir ref None = Throw err ->
  ref_resolve env h gitdir (remote +:+ "/" +:+ ref) None = Ok oid ->
  accepted env h (tracking_setup gitdir remote ref oid) ->
  resolve_or_track env gitdir remote ref h
    = (tracking_setup gitdir remote ref oid, Ok oid).
Proof.
  intros Hlocal Hremote (H1 & H2 & H3 & _).
  unfold resolve_or_track, tracking_setup, try_catch, bind, ask, call, ret.
  cbn. rewrite Hlocal. cbn. rewrite !app_nil_r, Hremote. cbn.
  rewrite H1. cbn. rewrite H2. cbn. rewrite H3. done.
Qed.

Lemma bind_inv_ok {A B} (c : M A) (k : A -> M B) h e b :
  bind c k h = (e, Ok b) ->
  exists e1 a e2, c h = (e1, Ok a) /\ k a (h ++ e1) = (e2, Ok b)
                  /\ e = e1 ++ e2.
Proof.
  rewrite bind_run. destruct (c h) as [e1 [a|err]]; [|done].
  destruct (k a (h ++ e1)) as [e2 r] eqn:Hk. cbn. intros [= <- ->].
  by exists e1, a, e2.
Qed.

Lemma prepare_events env dir gitdir remote ref h e1 oid fullRef plan :
  prepare env dir gitdir remote ref h = (e1, Ok (oid, fullRef, plan)) ->
  exists et ew,
    e1 = et ++ ew
    /\ resolve_or_track env gitdir remote ref h = (et, Ok oid)
    /\ Forall is_log ew.
Proof.
  unfold prepare. intros Hp.
  apply bind_inv_ok in Hp as (et & oid' & ew & Ht & Hrest & ->).
  exists et, ew. 
  assert (Forall is_log ew) as Hlog.
  { eapply quiet_nil; [|exact Hrest].
    apply quiet_bind; [auto with quiet|]. intros ?.
    apply quiet_bind; [apply currentBranch_quiet|]. intros ?.
    apply quiet_bind; [apply classify_quiet|]. intros ?.
    auto with quiet. }
  apply bind_inv_ok in Hrest as (? & ? & ? & _ & Hrest & _).
  apply bind_inv_ok in Hrest as (? & ? & ? & _ & Hrest & _).
  apply bind_inv_ok in Hrest as (? & ? & ? & _ & Hrest & _).
  apply bind_inv_ok in Hrest as (? & ? & ? & _ & Hrest & _).
  apply bind_inv_ok in Hrest as (? & ? & ? & _ & Hrest & _).
  injection Hrest as _ -> _ _. done.
Qed.

(** C2, as amended.  When the first walk completes with at least one
    conflict recorded, [checkout] throws nothing and returns the whole
    list; from the walk on it has called nothing but [console.log]: no
    write, no removal, no index change, no HEAD update, and the index
    lock is never taken.  The only mutating calls of such a checkout are
    those that set up the remote tracking branch, made before the walk
    when [ref] did not resolve locally. *)
Theorem conflicts_returned_without_apply env a r h e1 oid fullRef plan :
  ref a = Some r ->
  prepare env (dir a) (gitdir_of env a) (remote_of a) r h
    = (e1, Ok (oid, fullRef, plan)) ->
  errors plan <> [] ->
  checkout env a h = (e1, Ok (Some (errors plan)))
  /\ exists et ew,
       e1 = et ++ ew
       /\ Forall is_log ew
       /\ (et = [] \/
           et = tracking_setup (gitdir_of env a) (remote_of a) r oid).
Proof.
  intros Hr Hp Herr. split.
  - rewrite (checkout_run _ _ _ _ Hr), Hp.
    destruct (errors plan); [done|]. done.
  - destruct (prepare_events _ _ _ _ _ _ _ _ _ _ Hp) as (et & ew & -> & Ht & Hl).
    exists et, ew. split; [done|]. split; [done|].
    by eapply resolve_or_track_events.
Qed.

Lemma conflicts_returned_without_apply_witness :
  checkout (Sample.repo true [Sample.edited_both] Sample.new_tree)
           Sample.args []
  = ([EvLog (LogOperations []);
      EvLog (LogErrors [conflict (changed_message "a.txt" "feature")])],
     Ok (Some [conflict (changed_message "a.txt" "feature")])).
Proof.
  refine (proj1 (conflicts_returned_without_apply
    (Sample.repo true [Sample.edited_both] Sample.new_tree) Sample.args
    "feature" [] _ Sample.commit "refs/heads/feature"
    {| operations := [];
       errors := [conflict (changed_message "a.txt" "feature")] |}
    eq_refl _ _)).
  - vm_compute. reflexivity.
  - discriminate.
Defined.

(** C2, as stated, fails: a checkout that had to create the tracking
    branch has written [refs/heads/feature] and two config keys before
    it returns the conflicts. *)
Lemma mutation_before_conflicts :
  ~ no_mutation_on_conflict
      (Sample.repo false [Sample.edited_both] Sample.new_tree)
      Sample.args [].
Proof.
  intros H.
  specialize (H
    (tracking_setup "/w/.git" "origin" "feature" Sample.commit ++
     [EvLog (LogOperations []);
      EvLog (LogErrors [conflict (changed_message "a.txt" "feature")])])
    [conflict (changed_message "a.txt" "feature")]).
  assert (Hrun : checkout
            (Sample.repo false [Sample.edited_both] Sample.new_tree)
            Sample.args [] =
          (tracking_setup "/w/.git" "origin" "feature" Sample.commit ++
           [EvLog (LogOperations []);
            EvLog (LogErrors [conflict (changed_message "a.txt" "feature")])],
           Ok (Some [conflict (changed_message "a.txt" "feature")])))
    by (vm_compute; reflexivity).
  specialize (H Hrun). inversion H as [|? ? Hlog _]. exact Hlog.
Qed.

Lemma bind_prefix {A B} (c : M A) (k : A -> M B) h :
  exists rest, (bind c k h).1 = (c h).1 ++ rest.
Proof.
  rewrite bind_run. destruct (c h) as [e1 [x|err]]; cbn.
  - by eexists.
  - exists []. by rewrite app_nil_r.
Qed.

Lemma try_catch_prefix {A} (c : M A) handler h :
  exists rest, (try_catch c handler h).1 = (c h).1 ++ rest.
Proof.
  rewrite try_catch_run. destruct (c h) as [e1 [x|err]]; cbn.
  - exists []. by rewrite app_nil_r.
  - by eexists.
Qed.

Lemma prepare_prefix env dir gitdir remote ref h :
  exists rest,
    (prepare env dir gitdir remote ref h).1 =
    (resolve_or_track env gitdir remote ref h).1 ++ rest.
Proof. unfold prepare. apply bind_prefix. Qed.

Lemma checkout_prefix env a r h :
  ref a = Some r ->
  exists rest,
    (checkout env a h).1 =
    (prepare env (dir a) (gitdir_of env a) (remote_of a) r h).1 ++ rest.
Proof.
  intros Hr. unfold checkout. rewrite Hr.
  destruct (try_catch_prefix
    (x <- prepare env (dir a) (gitdir_of env a) (remote_of a) r ;;
     finish env (dir a) (gitdir_of env a) r x)
    (fun err => throw (set_caller "git.checkout" err)) h) as [r1 ->].
  destruct (bind_prefix
    (prepare env (dir a) (gitdir_of env a) (remote_of a) r)
    (fun x => finish env (dir a) (gitdir_of env a) r x) h) as [r2 ->].
  exists (r2 ++ r1). by assoc_r.
Qed.

(** C6. When [ref] does not resolve and [<remote>/<ref>] resolves to
    [oid], the first calls of [checkout] set [branch.<ref>.remote] to the
    remote, [branch.<ref>.merge] to [refs/heads/<ref>], and write [oid]
    followed by a newline to [refs/heads/<ref>] under the git
    directory. *)
Theorem tracking_branch_created env a r h err oid :
  ref a = Some r ->
  ref_resolve env h (gitdir_of env a) r None = Throw err ->
  ref_resolve env h (gitdir_of env a) (remote_of a +:+ "/" +:+ r) None
    = Ok oid ->
  accepted env h (tracking_setup (gitdir_of env a) (remote_of a) r oid) ->
  exists rest,
    (checkout env a h).1 =
      [ EvConfig ("branch." +:+ r +:+ ".remote") (remote_of a);
        EvConfig ("branch." +:+ r +:+ ".merge") ("refs/heads/" +:+ r);
        EvWrite (gitdir_of env a +:+ "/refs/heads/" +:+ r)
                (Some (oid +:+ nl)) None ] ++ rest.
Proof.
  intros Hr Hlocal Hremote Hacc.
  pose proof (resolve_or_track_new _ _ _ _ _ _ _ Hlocal Hremote Hacc) as Ht.
  fold (tracking_setup (gitdir_of env a) (remote_of a) r oid).
  destruct (checkout_prefix env a r h Hr) as [r1 ->].
  destruct (prepare_prefix env (dir a) (gitdir_of env a) (remote_of a) r h)
    as [r2 ->].
  rewrite Ht. exists (r2 ++ r1). cbn [fst]. by assoc_r.
Qed.

Lemma tracking_branch_created_witness :
  exists rest,
    (checkout (Sample.repo false Sample.clean_walk Sample.new_tree)
              Sample.args []).1 =
      [ EvConfig "branch.feature.remote" "origin";
        EvConfig "branch.feature.merge" "refs/heads/feature";
        EvWrite "/w/.git/refs/heads/feature"
                (Some (Sample.commit +:+ nl)) None ] ++ rest.
Proof.
  exact (tracking_branch_created
    (Sample.repo false Sample.clean_walk Sample.new_tree) Sample.args
    "feature" [] (Sample.no_ref "feature") Sample.commit
    eq_refl eq_refl eq_refl
    (conj eq_refl (conj eq_refl (conj eq_refl I)))).
Defined.

(** ** The callback of the second walk *)

Lemma materialize_map_blob env dir head workdir index h b m c o :
  fullpath head <> "." -> backing head = Some b ->
  b_stat b = Ok ("blob", m) -> b_content b = Ok c -> b_hash b = Ok o ->
  materialize_map env dir (head, workdir) index h =
    match blob_call (dir +:+ "/" +:+ fullpath head) m c with
    | None => ([], Throw (invalid_mode (Some m) (Some o)))
    | Some ev =>
        match io_fails env (h ++ [ev]) with
        | Some err => ([ev], Throw err)
        | None =>
            match fs_lstat env (h ++ [ev]) (dir +:+ "/" +:+ fullpath head) with
            | Throw err => ([ev], Throw err)
            | Ok st =>
                ([ev; EvIndexInsert (fullpath head)
                        (keep_executable (Some m) st) (Some o)],
                 Ok (Index.insert (fullpath head)
                       (keep_executable (Some m) st) (Some o) index))
            end
        end
    end.
Proof.
  intros Hfp Hb Hs Hc Ho.
  destruct head as [fp bk sk hk ck]. cbn in *. subst bk.
  unfold materialize_map, blob_call. cbn [fullpath].
  rewrite (bool_decide_eq_false_2 _ Hfp).
  unfold exists_, populateStat, populateContent, populateHash, strict_eq,
    type, mode, oid, content, stat_of, hash_of, content_of.
  cbn [backing stat_known hash_known content_known negb].
  rewrite Hs. rewrite bind_lift_ok. cbn [backing stat_known fmap option_fmap option_map fst snd].
  rewrite Hs. cbn [fmap option_fmap option_map fst snd].
  rewrite (bool_decide_eq_false_2 (Some "blob" = Some "tree")) by discriminate.
  rewrite (bool_decide_eq_false_2 (Some "blob" = Some "commit")) by discriminate.
  rewrite (bool_decide_eq_true_2 (Some "blob" = Some "blob")) by done.
  rewrite Hc, bind_lift_ok. cbn [backing]. rewrite Ho, bind_lift_ok.
  cbn [backing stat_known hash_known content_known].
  rewrite Hs, Hc, Ho. cbn [fmap option_fmap option_map fst snd].
  destruct (decide (m = "100644")) as [->|H1].
  { rewrite !bool_decide_eq_true_2 by done.
    unfold bind, call, ask, emit, ret. cbn.
    destruct (io_fails env _); [done|]. cbn.
    destruct (fs_lstat env _ _); done. }
  rewrite (bool_decide_eq_false_2 (Some m = Some "100644")) by congruence.
  rewrite (bool_decide_eq_false_2 (m = "100644")) by done.
  destruct (decide (m = "100755")) as [->|H2].
  { rewrite !bool_decide_eq_true_2 by done.
    unfold bind, call, ask, emit, ret. cbn.
    destruct (io_fails env _); [done|]. cbn.
    destruct (fs_lstat env _ _); done. }
  rewrite (bool_decide_eq_false_2 (Some m = Some "100755")) by congruence.
  rewrite (bool_decide_eq_false_2 (m = "100755")) by done.
  destruct (decide (m = "120000")) as [->|H3].
  { rewrite !bool_decide_eq_true_2 by done.
    unfold bind, call, ask, emit, ret. cbn.
    destruct (io_fails env _); [done|]. cbn.
    destruct (fs_lstat env _ _); done. }
  rewrite (bool_decide_eq_false_2 (Some m = Some "120000")) by congruence.
  rewrite (bool_decide_eq_false_2 (m = "120000")) by done.
  done.
Qed.

Lemma materialize_map_stat env dir head workdir index h b ty m :
  fullpath head <> "." -> backing head = Some b -> b_stat b = Ok (ty, m) ->
  materialize_map env dir (head, workdir) index h =
    if bool_decide (ty = "tree") then
      if exists_ workdir then ([], Ok index)
      else ([EvMkdir (dir +:+ "/" +:+ fullpath head)],
            match io_fails env
                    (h ++ [EvMkdir (dir +:+ "/" +:+ fullpath head)]) with
            | None => Ok index
            | Some err => Throw err
            end)
    else if bool_decide (ty = "commit") then
      ([EvLog (LogError submodule_notice)], Ok index)
    else if bool_decide (ty = "blob") then
      materialize_map env dir (head, workdir) index h
    else ([], Throw (unknown_type (Some ty) (oid head) (fullpath head))).
Proof.
  intros Hfp Hb Hs.
  destruct (decide (ty = "blob")) as [->|Hblob].
  { by rewrite !bool_decide_eq_false_2, bool_decide_eq_true_2 by done. }
  rewrite (bool_decide_eq_false_2 (ty = "blob")) by done.
  destruct head as [fp bk sk hk ck]. cbn in *. subst bk.
  unfold materialize_map. cbn [fullpath].
  rewrite (bool_decide_eq_false_2 _ Hfp).
  unfold exists_ at 1, populateStat, strict_eq, type, mode, oid, stat_of,
    hash_of.
  cbn [backing stat_known hash_known content_known negb].
  rewrite Hs, bind_lift_ok.
  cbn [backing stat_known hash_known fmap option_fmap option_map fst snd].
  rewrite Hs. cbn [fmap option_fmap option_map fst snd].
  destruct (decide (ty = "tree")) as [->|Htree].
  { rewrite !bool_decide_eq_true_2 by done.
    unfold bind, call, ret. destruct (exists_ workdir); cbn; [done|].
    by destruct (io_fails env _). }
  rewrite (bool_decide_eq_false_2 (Some ty = Some "tree")) by congruence.
  rewrite (bool_decide_eq_false_2 (ty = "tree")) by done.
  destruct (decide (ty = "commit")) as [->|Hcommit].
  { by rewrite !bool_decide_eq_true_2 by done. }
  rewrite (bool_decide_eq_false_2 (Some ty = Some "commit")) by congruence.
  rewrite (bool_decide_eq_false_2 (ty = "commit")) by done.
  rewrite (bool_decide_eq_false_2 (Some ty = Some "blob")) by congruence.
  done.
Qed.

(** C5, as amended.  The callback of the second walk, on an entry of the
    new tree other than the root, goes by the type of the entry.  A tree: the
    directory is created when the working directory does not have it,
    and nothing is called when it has.  A blob of mode 100644, 100755 or
    120000: it is written, [fs.lstat] is asked after the write, and the
    index receives the path, that lstat result (with the executable mode
    of the tree kept for 100755) and the oid.  A blob of any other mode:
    InternalFail is thrown and nothing is written.  A type other than
    tree, commit and blob: ObjectTypeAssertionInTreeFail is thrown. *)
Theorem materialize_map_by_type env dir head workdir index h b ty m :
  fullpath head <> "." -> backing head = Some b -> b_stat b = Ok (ty, m) ->
  (ty = "tree" -> exists_ workdir = false ->
   io_fails env (h ++ [EvMkdir (dir +:+ "/" +:+ fullpath head)]) = None ->
   materialize_map env dir (head, workdir) index h
     = ([EvMkdir (dir +:+ "/" +:+ fullpath head)], Ok index))
  /\ (ty = "tree" -> exists_ workdir = true ->
      materialize_map env dir (head, workdir) index h = ([], Ok index))
  /\ (ty = "blob" -> forall c o ev st,
      b_content b = Ok c -> b_hash b = Ok o ->
      blob_call (dir +:+ "/" +:+ fullpath head) m c = Some ev ->
      io_fails env (h ++ [ev]) = None ->
      fs_lstat env (h ++ [ev]) (dir +:+ "/" +:+ fullpath head) = Ok st ->
      materialize_map env dir (head, workdir) index h
        = ([ev; EvIndexInsert (fullpath head)
                  (keep_executable (Some m) st) (Some o)],
           Ok (Index.insert (fullpath head)
                 (keep_executable (Some m) st) (Some o) index)))
  /\ (ty = "blob" -> forall c o,
      b_content b = Ok c -> b_hash b = Ok o ->
      m <> "100644" -> m <> "100755" -> m <> "120000" ->
      materialize_map env dir (head, workdir) index h
        = ([], Throw (invalid_mode (Some m) (Some o)))
      /\ code (invalid_mode (Some m) (Some o)) = E.InternalFail)
  /\ (ty <> "tree" -> ty <> "commit" -> ty <> "blob" ->
      materialize_map env dir (head, workdir) index h
        = ([], Throw (unknown_type (Some ty) (oid head) (fullpath head)))
      /\ code (unknown_type (Some ty) (oid head) (fullpath head))
         = E.ObjectTypeAssertionInTreeFail).
Proof.
  intros Hfp Hb Hs. split; [|split; [|split; [|split]]].
  - intros -> Hw Hio.
    rewrite (materialize_map_stat _ _ _ _ _ _ _ _ _ Hfp Hb Hs).
    rewrite bool_decide_eq_true_2 by done. by rewrite Hw, Hio.
  - intros -> Hw.
    rewrite (materialize_map_stat _ _ _ _ _ _ _ _ _ Hfp Hb Hs).
    rewrite bool_decide_eq_true_2 by done. by rewrite Hw.
  - intros -> c o ev st Hc Ho Hev Hio Hst.
    rewrite (materialize_map_blob _ _ _ _ _ _ _ _ _ _ Hfp Hb Hs Hc Ho).
    by rewrite Hev, Hio, Hst.
  - intros -> c o Hc Ho H1 H2 H3. split; [|done].
    rewrite (materialize_map_blob _ _ _ _ _ _ _ _ _ _ Hfp Hb Hs Hc Ho).
    unfold blob_call. by rewrite !bool_decide_eq_false_2 by done.
  - intros Ht Hc Hbl. split; [|done].
    rewrite (materialize_map_stat _ _ _ _ _ _ _ _ _ Hfp Hb Hs).
    by rewrite !bool_decide_eq_false_2 by done.
Qed.

Lemma materialize_map_by_type_witness :
  materialize_map (Sample.repo true Sample.clean_walk Sample.new_tree) "/w"
    (entry "b.sh" (Some (Sample.exe "n2")), entry "b.sh" None) [] []
  = ([EvWrite "/w/b.sh" (Some "run") (Some 493);
      EvIndexInsert "b.sh"
        {| st_mode := 493; st_size := 4; st_mtimeMs := 1262356920000 |}
        (Some "n2")],
     Ok [ {| path := "b.sh"; ie_oid := Some "n2";
             stats := {| st_mode := 493; st_size := 4;
                         st_mtimeMs := 1262356920000 |} |} ]).
Proof.
  pose proof (materialize_map_by_type
    (Sample.repo true Sample.clean_walk Sample.new_tree) "/w"
    (entry "b.sh" (Some (Sample.exe "n2"))) (entry "b.sh" None) [] []
    (Sample.exe "n2") "blob" "100755"
    ltac:(discriminate) eq_refl eq_refl) as (_ & _ & Hblob & _).
  exact (Hblob eq_refl "run" "n2"
           (EvWrite "/w/b.sh" (Some "run") (Some 493)) Sample.stats0
           eq_refl eq_refl eq_refl eq_refl eq_refl).
Defined.

(** C5, as stated, fails: for the executable [b.sh] the index receives
    mode 0o755 from the tree, which is not what [fs.lstat] reported. *)
Lemma executable_stats_not_from_lstat :
  ~ inserts_lstat_result SampleRun.env "/w"
      (entry "b.sh" (Some (Sample.exe "n2")), entry "b.sh" None) [] [].
Proof.
  intros H.
  destruct (H SampleRun.second_walk SampleRun.new_index
              "b.sh" SampleRun.exe_stats (Some "n2")
              ltac:(vm_compute; reflexivity)
              ltac:(apply list_elem_of_further, list_elem_of_here))
    as [hist Hlstat].
  cbn in Hlstat. discriminate Hlstat.
Qed.

(** ** The apply phase as a whole *)

Lemma checkout_apply_run env a r h e1 oid fullRef plan index :
  ref a = Some r ->
  prepare env (dir a) (gitdir_of env a) (remote_of a) r h
    = (e1, Ok (oid, fullRef, plan)) ->
  errors plan = [] ->
  index_load env (h ++ e1 ++ [EvAcquire (index_file (gitdir_of env a))])
             (index_file (gitdir_of env a)) = Ok index ->
  checkout env a h =
    match apply_plan env (dir a) (gitdir_of env a) r oid fullRef
            (operations plan) index
            (h ++ e1 ++ [EvAcquire (index_file (gitdir_of env a))])
    with
    | (eb, Throw err) =>
        (e1 ++ [EvAcquire (index_file (gitdir_of env a))] ++ eb ++
         [EvRelease (index_file (gitdir_of env a))],
         Throw (set_caller "git.checkout" err))
    | (eb, Ok index') =>
        (e1 ++ [EvAcquire (index_file (gitdir_of env a))] ++ eb ++
         [EvPersist (index_file (gitdir_of env a)) index';
          EvRelease (index_file (gitdir_of env a))],
         match io_fails env
                 (h ++ e1 ++ [EvAcquire (index_file (gitdir_of env a))] ++
                  eb ++ [EvPersist (index_file (gitdir_of env a)) index'])
         with
         | None => Ok None
         | Some err => Throw (set_caller "git.checkout" err)
         end)
    end.
Proof.
  intros Hr Hp Herr Hload.
  rewrite (checkout_run _ _ _ _ Hr), Hp, Herr. cbn [length Nat.ltb Nat.leb].
  fold (index_file (gitdir_of env a)).
  rewrite acquire_run. revert Hload. assoc_r. intros ->.
  destruct (apply_plan _ _ _ _ _ _ _ _ _) as [eb [index'|err]]; cbn.
  - assoc_r. cbn. by destruct (io_fails env _).
  - done.
Qed.

Ltac list_norm :=
  repeat first [ rewrite <- app_assoc | progress cbn [app]
               | progress cbv beta iota ].

Lemma write_loop_run env gitdir ops h :
  write_loop env gitdir ops h =
    ([], match first_write ops with
         | Some o =>
             Throw {| code := E.ObjectTypeAssertionInTreeFail;
                      data := prop "oid" (op_oid o) ∅;
                      caller := None |}
         | None => Ok tt
         end).
Proof.
  revert h. induction ops as [|o ops IH]; intros h; [done|].
  unfold write_loop in *. cbn [for_of first_write].
  rewrite bind_run. destruct (bool_decide (op o = write)); [done|].
  cbn [ret fst snd]. by rewrite IH.
Qed.

(** C4. The loop over the queued writes applies none of them.  When the
    first walk recorded no error and queued at least one write, the
    apply phase, under the index lock, calls [fs.rm] for every queued
    unlink and then stops at the first queued write: [checkout] throws
    ObjectTypeAssertionInTreeFail for the oid of that operation, without
    a [type], tagged with its caller.  The calls made are those up to the
    end of the first walk, the lock, the unlinks and the release of the
    lock: no file has been written, [index.clear()] and the second walk
    are not reached, HEAD is not written and the index is not saved. *)
Theorem queued_write_stops_apply_phase
    env a r h e1 oid fullRef plan index o :
  ref a = Some r ->
  prepare env (dir a) (gitdir_of env a) (remote_of a) r h
    = (e1, Ok (oid, fullRef, plan)) ->
  errors plan = [] ->
  index_load env (h ++ e1 ++ [EvAcquire (index_file (gitdir_of env a))])
             (index_file (gitdir_of env a)) = Ok index ->
  first_write (operations plan) = Some o ->
  checkout env a h =
    (e1 ++ [EvAcquire (index_file (gitdir_of env a))] ++
     unlink_calls (dir a) (operations plan) ++
     [EvRelease (index_file (gitdir_of env a))],
     Throw {| code := E.ObjectTypeAssertionInTreeFail;
              data := prop "oid" (op_oid o) ∅;
              caller := Some "git.checkout" |}).
Proof.
  intros Hr Hp Herr Hload Hw.
  rewrite (checkout_apply_run _ _ _ _ _ _ _ _ _ Hr Hp Herr Hload).
  rewrite apply_plan_run. cbn zeta. rewrite write_loop_run, Hw.
  by rewrite app_nil_r.
Qed.

Lemma queued_write_stops_apply_phase_witness :
  checkout SampleRun.env Sample.args []
  = (SampleRun.calls, Throw SampleRun.stopped).
Proof.
  exact (queued_write_stops_apply_phase SampleRun.env Sample.args "feature"
           [] SampleRun.logs Sample.commit "refs/heads/feature" SampleRun.plan
           SampleRun.old_index
           {| op := write; filepath := "b.sh";
              op_oid := Some "n2"; op_mode := Some "100755" |}
           eq_refl ltac:(vm_compute; reflexivity) eq_refl eq_refl eq_refl).
Defined.

(** ** Failures of the second walk *)

(** C7. An error thrown in the second walk leaves [materialize] with
    code CommitNotFetchedError and the data [{ref, oid}], in place of
    what it was, when its code is ReadObjectFail and the oid it reports
    is [oid], the oid that [ref] resolved to; any other error, also a
    read failure for another oid, leaves it as it was thrown. *)
Theorem read_failure_relabelled env dir gitdir r oid index h em err :
  walkBeta1 (walk_materialize env h dir gitdir r) (materialize_map env dir)
            index h = (em, Throw err) ->
  exists out,
    materialize env dir gitdir r oid index h = (em, Throw out)
    /\ (code err = E.ReadObjectFail -> data err !! "oid" = Some oid ->
        out = {| code := E.CommitNotFetchedError;
                 data := {[ "ref" := r; "oid" := oid ]};
                 caller := None |})
    /\ (code err = E.ReadObjectFail -> data err !! "oid" <> Some oid ->
        out = err)
    /\ (code err <> E.ReadObjectFail -> out = err).
Proof.
  intros Hwalk. exists (relabel r oid err). split; [|split; [|split]].
  - unfold materialize. rewrite try_catch_run, Hwalk. cbn.
    by rewrite app_nil_r.
  - intros Hc Ho. unfold relabel.
    by rewrite !bool_decide_eq_true_2 by done.
  - intros Hc Ho. unfold relabel.
    rewrite (bool_decide_eq_false_2 _ Ho). by rewrite andb_false_r.
  - intros Hc. unfold relabel. by rewrite (bool_decide_eq_false_2 _ Hc).
Qed.

Lemma read_failure_relabelled_witness :
  materialize
    (Sample.repo true Sample.clean_walk
       [(entry "c.txt" (Some (Sample.unread Sample.commit)),
         entry "c.txt" None)])
    "/w" "/w/.git" "feature" Sample.commit [] []
  = ([], Throw {| code := E.CommitNotFetchedError;
                  data := {[ "ref" := "feature"; "oid" := Sample.commit ]};
                  caller := None |}).
Proof.
  destruct (read_failure_relabelled
    (Sample.repo true Sample.clean_walk
       [(entry "c.txt" (Some (Sample.unread Sample.commit)),
         entry "c.txt" None)])
    "/w" "/w/.git" "feature" Sample.commit [] [] []
    (Sample.missing Sample.commit)
    ltac:(vm_compute; reflexivity)) as (out & Hrun & Hsame & _).
  rewrite Hrun, (Hsame eq_refl ltac:(vm_compute; reflexivity)).
  reflexivity.
Defined.

(** ** The HEAD update *)

Lemma prepare_expand env dir gitdir remote r h e1 oid fullRef plan :
  prepare env dir gitdir remote r h = (e1, Ok (oid, fullRef, plan)) ->
  exists et, ref_expand env (h ++ et) gitdir r = Ok fullRef.
Proof.
  unfold prepare. intros Hp.
  apply bind_inv_ok in Hp as (et & oid' & ? & _ & Hrest & _).
  exists et.
  apply bind_inv_ok in Hrest as (? & fullRef' & ? & Hex & Hrest & _).
  apply bind_inv_ok in Hrest as (? & ? & ? & _ & Hrest & _).
  apply bind_inv_ok in Hrest as (? & ? & ? & _ & Hrest & _).
  apply bind_inv_ok in Hrest as (? & ? & ? & _ & Hrest & _).
  apply bind_inv_ok in Hrest as (? & ? & ? & _ & Hrest & _).
  unfold ask in Hex. unfold ret in Hrest. by simplify_eq.
Qed.

(** A checkout that completes has written HEAD as its last call before
    the index is saved and the lock released, after [index.clear()] and
    the second walk; what it writes is [ref: ] followed by the name that
    [ref] expands to, with nothing after it. *)
Lemma completed_checkout_ends_with_head_write env a h evs :
  checkout env a h = (evs, Ok None) ->
  exists r fullRef hist pre em index',
    ref a = Some r
    /\ ref_expand env hist (gitdir_of env a) r = Ok fullRef
    /\ evs = pre ++ [EvIndexClear] ++ em ++
             [ EvWrite (gitdir_of env a +:+ "/HEAD")
                       (Some ("ref: " +:+ fullRef)) None;
               EvPersist (index_file (gitdir_of env a)) index';
               EvRelease (index_file (gitdir_of env a)) ]
    /\ exists oid,
         materialize env (dir a) (gitdir_of env a) r oid []
           (h ++ pre ++ [EvIndexClear]) = (em, Ok index').
Proof.
  intros Hrun. destruct (ref a) as [r|] eqn:Hr;
    [|unfold checkout in Hrun; by rewrite Hr in Hrun].
  rewrite (checkout_run _ _ _ _ Hr) in Hrun.
  destruct (prepare _ _ _ _ _ _) as [e1 [[[oid fullRef] plan]|err]] eqn:Hp;
    [|done].
  destruct (prepare_expand _ _ _ _ _ _ _ _ _ _ Hp) as [et Hex].
  destruct (errors plan); [|done]. cbn [length Nat.ltb Nat.leb] in Hrun.
  fold (index_file (gitdir_of env a)) in Hrun.
  rewrite acquire_run in Hrun.
  destruct (index_load env _ _) as [index|?]; [|done].
  rewrite apply_plan_run in Hrun. cbn zeta in Hrun.
  destruct (write_loop _ _ _ _) as [ew [[]|?]]; [|done].
  revert Hrun. list_norm.
  destruct (materialize _ _ _ _ _ _ _) as [em [index'|?]] eqn:Hm; [|done].
  destruct (io_fails env _); [done|]. list_norm.
  destruct (io_fails env _); [done|]. intros [= <-].
  exists r, fullRef, (h ++ et),
    (e1 ++ [EvAcquire (index_file (gitdir_of env a))] ++
     unlink_calls (dir a) (operations plan) ++ ew ++
     index_rm_calls env (dir a) index), em, index'.
  split; [done|]. split; [done|]. split; [by list_norm|].
  exists oid. revert Hm. by list_norm.
Qed.

(** C8.  The checkout of [feature] in the sample repository where it
    only removes [a.txt], so that no write is queued, completes; its
    last call before the index is saved and the lock released writes
    [ref: refs/heads/feature] to HEAD, after the index rebuild, and that
    content does not end with a newline: the claim does not hold of this
    run. *)
Theorem head_written_without_newline :
  checkout SampleDone.env Sample.args [] = (SampleDone.calls, Ok None)
  /\ (exists pre,
        SampleDone.calls = pre ++ [EvIndexClear] ++ SampleRun.second_walk ++
          [ EvWrite "/w/.git/HEAD" (Some "ref: refs/heads/feature") None;
            EvPersist "/w/.git/index" SampleRun.new_index;
            EvRelease "/w/.git/index" ])
  /\ "ref: refs/heads/feature" <> symbolic_ref "refs/heads/feature"
  /\ ~ head_rewritten_with_newline SampleDone.env Sample.args [].
Proof.
  assert (Hrun : checkout SampleDone.env Sample.args []
                 = (SampleDone.calls, Ok None)) by (vm_compute; reflexivity).
  split; [exact Hrun|]. split; [|split].
  - exists (SampleDone.logs ++
            [ EvAcquire "/w/.git/index"; EvRm "/w/a.txt";
              EvRm "/w/a.txt"; EvRm "/w/b.sh" ]).
    reflexivity.
  - discriminate.
  - intros H.
    destruct (H SampleDone.calls Hrun) as (pre & r & index' & Hr & Hcalls).
    injection Hr as <-.
    change SampleDone.calls with
      ((SampleDone.logs ++
        [ EvAcquire "/w/.git/index"; EvRm "/w/a.txt";
          EvRm "/w/a.txt"; EvRm "/w/b.sh";
          EvIndexClear ] ++ SampleRun.second_walk) ++
       [ EvWrite "/w/.git/HEAD" (Some "ref: refs/heads/feature") None;
         EvPersist "/w/.git/index" SampleRun.new_index;
         EvRelease "/w/.git/index" ]) in Hcalls.
    apply app_inj_2 in Hcalls as [_ Htail]; [|done].
    injection Htail as Hhead _. vm_compute in Hhead. discriminate Hhead.
Qed.

(** ** currentBranch *)

(** C9. When resolving HEAD two levels deep gives [refs/heads/main],
    [currentBranch] returns [refs/heads/main] with [fullname] and [main]
    without. *)
Theorem currentBranch_names env gitdir h :
  ref_resolve env h gitdir "HEAD" (Some 2%nat) = Ok "refs/heads/main" ->
  currentBranch env gitdir true h = ([], Ok "refs/heads/main")
  /\ currentBranch env gitdir false h = ([], Ok "main").
Proof.
  intros Hhead.
  unfold currentBranch, try_catch, bind, ask, ret. rewrite Hhead. done.
Qed.

Lemma currentBranch_names_witness :
  currentBranch SampleRun.env "/w/.git" true [] = ([], Ok "refs/heads/main")
  /\ currentBranch SampleRun.env "/w/.git" false [] = ([], Ok "main").
Proof.
  exact (currentBranch_names SampleRun.env "/w/.git" [] eq_refl).
Defined.

(** ** Concrete runs *)

Example abbrev_branch : GitRefManager.abbrev "refs/heads/main" = "main".
Proof. reflexivity. Qed.

Example abbrev_remote :
  GitRefManager.abbrev "refs/remotes/origin/main" = "origin/main".
Proof. reflexivity. Qed.

Example abbrev_other : GitRefManager.abbrev "HEAD" = "HEAD".
Proof. reflexivity. Qed.

Example insert_replaces_and_orders :
  Index.insert "a.txt" Sample.stats0 (Some "h2")
    (Index.insert "b.sh" SampleRun.exe_stats (Some "n2")
       (Index.insert "a.txt" Sample.stats0 (Some "h1") []))
  = [ {| path := "a.txt"; ie_oid := Some "h2"; stats := Sample.stats0 |};
      {| path := "b.sh"; ie_oid := Some "n2"; stats := SampleRun.exe_stats |} ].
Proof. vm_compute. reflexivity. Qed.

Example clean_walk_plan :
  classify SampleRun.env "/w" "/w/.git" "refs/heads/main" "feature" []
  = ([], Ok SampleRun.plan).
Proof. vm_compute. reflexivity. Qed.

Example checkout_without_ref :
  checkout SampleRun.env
    {| dir := "/w"; gitdir := None; remote := None; ref := None |} []
  = ([], Throw (set_caller "git.checkout" missing_ref)).
Proof. reflexivity. Qed.

Example removal_walk_plan :
  classify SampleDone.env "/w" "/w/.git" "refs/heads/main" "feature" []
  = ([], Ok SampleDone.plan).
Proof. vm_compute. reflexivity. Qed.

Example checkout_of_unfetched_commit :
  checkout
    (Sample.repo true Sample.removal_walk
       [(entry "c.txt" (Some (Sample.unread Sample.commit)),
         entry "c.txt" None)])
    Sample.args []
  = (SampleDone.logs ++
     [ EvAcquire "/w/.git/index"; EvRm "/w/a.txt"; EvRm "/w/a.txt";
       EvIndexClear; EvRelease "/w/.git/index" ],
     Throw (set_caller "git.checkout"
              (commit_not_fetched "feature" Sample.commit))).
Proof. vm_compute. reflexivity. Qed.

(** A queued write of mode 100644 does not get by the test of line 213
    either. *)
Example queued_regular_write :
  write_loop SampleRun.env "/w/.git"
    [ {| op := write; filepath := "c.txt";
         op_oid := Some "n3"; op_mode := Some "100644" |} ] []
  = ([], Throw (new_GitError E.ObjectTypeAssertionInTreeFail
                  {[ "oid" := "n3" ]})).
Proof. vm_compute. reflexivity. Qed.

(** * Further properties *)

(** ** Calls of a given kind *)

Lemma emits_ret {A} P (a : A) : emits P (ret a).
Proof. intros h. constructor. Qed.

Lemma emits_throw {A} P err : emits P (@throw A err).
Proof. intros h. constructor. Qed.

Lemma emits_lift {A} P (r : Result A) : emits P (lift r).
Proof. intros h. constructor. Qed.

Lemma emits_ask {A} P (f : list Event -> Result A) : emits P (ask f).
Proof. intros h. constructor. Qed.

Lemma emits_emit (P : Event -> Prop) ev : P ev -> emits P (emit ev).
Proof. intros Hev h. by repeat constructor. Qed.

Lemma emits_call (P : Event -> Prop) env ev : P ev -> emits P (call env ev).
Proof. intros Hev h. by repeat constructor. Qed.

Lemma emits_bind {A B} P (c : M A) (k : A -> M B) :
  emits P c -> (forall a, emits P (k a)) -> emits P (bind c k).
Proof.
  intros Hc Hk h. rewrite bind_run. specialize (Hc h).
  destruct (c h) as [e1 [a|err]]; cbn in *; [|done].
  apply Forall_app. split; [done|apply Hk].
Qed.

Lemma emits_try_catch {A} P (c : M A) handler :
  emits P c -> (forall err, emits P (handler err)) ->
  emits P (try_catch c handler).
Proof.
  intros Hc Hk h. rewrite try_catch_run. specialize (Hc h).
  destruct (c h) as [e1 [a|err]]; cbn in *; [done|].
  apply Forall_app. split; [done|apply Hk].
Qed.

Lemma emits_if {A} P (b : bool) (c1 c2 : M A) :
  emits P c1 -> emits P c2 -> emits P (if b then c1 else c2).
Proof. by destruct b. Qed.

Lemma emits_for_of {T} P (l : list T) body :
  (forall x, emits P (body x)) -> emits P (for_of l body).
Proof.
  intros Hbody. induction l as [|x l IH]; cbn [for_of].
  - apply emits_ret.
  - apply emits_bind; [apply Hbody|]. intros _. apply IH.
Qed.

Lemma emits_walk_entries {T S} P (map : T -> S -> M S) l s :
  (forall t s, emits P (map t s)) -> emits P (walk_entries map l s).
Proof.
  intros Hmap. revert s.
  induction l as [|t l IH]; intros s; cbn [walk_entries].
  - apply emits_ret.
  - apply emits_bind; [apply Hmap|]. intros ?. apply IH.
Qed.

Lemma emits_walkBeta1 {T S} P (plan : WalkPlan T) (map : T -> S -> M S) s :
  (forall t s, emits P (map t s)) -> emits P (walkBeta1 plan map s).
Proof.
  intros Hmap. unfold walkBeta1. apply emits_bind.
  - by apply emits_walk_entries.
  - intros ?. destruct (failure plan); [apply emits_throw|apply emits_ret].
Qed.

Lemma emits_weaken {A} (P Q : Event -> Prop) (c : M A) :
  (forall ev, P ev -> Q ev) -> emits P c -> emits Q c.
Proof. intros HPQ Hc h. eapply Forall_impl; [apply Hc|done]. Qed.

Lemma quiet_emits {A} (c : M A) : quiet c -> emits is_log c.
Proof. done. Qed.

Ltac emits_step :=
  first [ apply emits_ret | apply emits_throw | apply emits_lift
        | apply emits_ask
        | apply emits_emit; solve [cbn; auto]
        | apply emits_call; solve [cbn; auto]
        | apply emits_if
        | apply emits_try_catch; [|intros ?]
        | apply emits_bind; [|intros ?]
        | apply emits_for_of; intros ? ].

(** ** The tag of a thrown error *)

(** X1. What the default of [fs] throws (line 26), before the [try] is
    entered, leaves the call as it was raised, with nothing called: it is
    not tagged by [checkout].  Whatever else the call throws was raised
    inside the [try] and carries [caller = 'git.checkout'], whichever
    step raised it. *)
Theorem checkout_errors_tagged env c h evs err :
  checkout_call env c h = (evs, Throw err) ->
  match default_fs env c with
  | Throw e => err = e /\ evs = []
  | Ok _ => caller err = Some "git.checkout"
  end.
Proof.
  unfold checkout_call. rewrite bind_run.
  destruct (default_fs env c) as [[]|e]; cbn.
  - unfold checkout. rewrite try_catch_run.
    destruct (ref (args c)) as [r|].
    + destruct (bind _ _ _) as [e1 [x|err0]]; [done|].
      cbn. by intros [= _ <-].
    + cbn. by intros [= _ <-].
  - by intros [= <- <-].
Qed.

Lemma checkout_errors_tagged_witness :
  (Sample.no_core "worker" = Sample.no_core "worker" /\ @nil Event = [])
  /\ caller SampleRun.stopped = Some "git.checkout".
Proof.
  split.
  - exact (checkout_errors_tagged SampleRun.env
             {| core := Some "worker"; fs_passed := false;
                args := Sample.args |}
             [] [] (Sample.no_core "worker") eq_refl).
  - exact (checkout_errors_tagged SampleRun.env
             {| core := None; fs_passed := false; args := Sample.args |}
             [] SampleRun.calls SampleRun.stopped
             ltac:(vm_compute; reflexivity)).
Defined.

Lemma prepare_run env dir gitdir remote ref h :
  prepare env dir gitdir remote ref h =
    match resolve_or_track env gitdir remote ref h with
    | (et, Throw err) => (et, Throw err)
    | (et, Ok oid) =>
        match ref_expand env (h ++ et) gitdir ref with
        | Throw err => (et, Throw err)
        | Ok fullRef =>
            match ref_resolve env (h ++ et) gitdir "HEAD" (Some 2%nat) with
            | Throw err => (et, Throw (set_caller "git.currentBranch" err))
            | Ok currentRef =>
                match classify env dir gitdir currentRef ref (h ++ et) with
                | (ew, Throw err) => (et ++ ew, Throw err)
                | (ew, Ok plan) =>
                    (et ++ ew ++
                     [EvLog (LogOperations (operations plan));
                      EvLog (LogErrors (errors plan))],
                     Ok (oid, fullRef, plan))
                end
            end
        end
    end.
Proof.
  unfold prepare, currentBranch, bind, try_catch, ask, emit, ret, throw.
  destruct (resolve_or_track _ _ _ _ _) as [et [oid|err]]; [|done].
  rewrite !app_nil_r.
  destruct (ref_expand env (h ++ et) gitdir ref) as [fullRef|err];
    [|by rewrite app_nil_r].
  destruct (ref_resolve env (h ++ et) gitdir "HEAD" (Some 2%nat))
    as [currentRef|err]; [|by rewrite !app_nil_r].
  rewrite !app_nil_r.
  destruct (classify _ _ _ _ _ _) as [ew [plan|err]]; by rewrite ?app_nil_r.
Qed.

(** X2. When HEAD cannot be resolved, [currentBranch] throws the
    resolver's error with [caller = 'git.currentBranch'] and calls
    nothing, for either value of [fullname]; inside [checkout] the same
    failure stops the command before the first walk, and the error
    leaves with [caller = 'git.checkout']. *)
Theorem unresolved_head env a r h et oid fullRef err :
  ref a = Some r ->
  resolve_or_track env (gitdir_of env a) (remote_of a) r h = (et, Ok oid) ->
  ref_expand env (h ++ et) (gitdir_of env a) r = Ok fullRef ->
  ref_resolve env (h ++ et) (gitdir_of env a) "HEAD" (Some 2%nat)
    = Throw err ->
  (forall fullname,
     currentBranch env (gitdir_of env a) fullname (h ++ et)
       = ([], Throw (set_caller "git.currentBranch" err)))
  /\ checkout env a h = (et, Throw (set_caller "git.checkout" err)).
Proof.
  intros Hr Ht Hex Hhead. split.
  - intros fullname. unfold currentBranch, try_catch, bind, ask.
    by rewrite Hhead.
  - rewrite (checkout_run _ _ _ _ Hr), prepare_run, Ht, Hex, Hhead. done.
Qed.

Lemma unresolved_head_witness :
  checkout SampleX.headless Sample.args []
  = ([], Throw (set_caller "git.checkout" (Sample.no_ref "HEAD"))).
Proof.
  exact (proj2 (unresolved_head SampleX.headless Sample.args "feature" [] []
                  Sample.commit "refs/heads/feature" (Sample.no_ref "HEAD")
                  eq_refl eq_refl eq_refl eq_refl)).
Defined.

(** ** Resolution of the ref *)

Lemma resolve_or_track_local env gitdir remote ref h oid :
  ref_resolve env h gitdir ref None = Ok oid ->
  resolve_or_track env gitdir remote ref h = ([], Ok oid).
Proof.
  intros Hlocal. unfold resolve_or_track, try_catch, ask. by rewrite Hlocal.
Qed.

Lemma resolve_or_track_remote env gitdir remote ref h err :
  ref_resolve env h gitdir ref None = Throw err ->
  resolve_or_track env gitdir remote ref h =
    (oid <- ask (fun h' => ref_resolve env h' gitdir
                             (remote +:+ "/" +:+ ref) None) ;;
     call env (EvConfig ("branch." +:+ ref +:+ ".remote") remote) ;;;
     call env (EvConfig ("branch." +:+ ref +:+ ".merge")
                        ("refs/heads/" +:+ ref)) ;;;
     call env (EvWrite (gitdir +:+ "/refs/heads/" +:+ ref)
                       (Some (oid +:+ nl)) None) ;;;
     ret oid) h.
Proof.
  intros Hlocal. unfold resolve_or_track. rewrite try_catch_run.
  unfold ask at 1. rewrite Hlocal, app_nil_r.
  by destruct (bind _ _ h).
Qed.

(** X3. When neither [ref] nor [<remote>/<ref>] resolves, [checkout]
    calls nothing at all and throws the error of the second lookup, the
    one for [<remote>/<ref>], tagged with its caller. *)
Theorem unknown_ref_changes_nothing env a r h err1 err2 :
  ref a = Some r ->
  ref_resolve env h (gitdir_of env a) r None = Throw err1 ->
  ref_resolve env h (gitdir_of env a) (remote_of a +:+ "/" +:+ r) None
    = Throw err2 ->
  checkout env a h = ([], Throw (set_caller "git.checkout" err2)).
Proof.
  intros Hr Hlocal Hremote.
  rewrite (checkout_run _ _ _ _ Hr), prepare_run.
  rewrite (resolve_or_track_remote _ _ _ _ _ _ Hlocal).
  unfold bind, ask. by rewrite Hremote.
Qed.

Lemma unknown_ref_changes_nothing_witness :
  checkout SampleX.refless Sample.args []
  = ([], Throw (set_caller "git.checkout" (Sample.no_ref "origin/feature"))).
Proof.
  exact (unknown_ref_changes_nothing SampleX.refless Sample.args "feature" []
           (Sample.no_ref "feature") (Sample.no_ref "origin/feature")
           eq_refl eq_refl eq_refl).
Defined.

(** X4. The ref file of a new tracking branch is written only after both
    config keys were accepted: when the first config call is refused
    nothing else is called, when the second is refused the first key
    stays set and the ref file is not written; either way [checkout]
    throws the refusal. *)
Theorem tracking_stops_at_refused_config env a r h err0 oid err :
  ref a = Some r ->
  ref_resolve env h (gitdir_of env a) r None = Throw err0 ->
  ref_resolve env h (gitdir_of env a) (remote_of a +:+ "/" +:+ r) None
    = Ok oid ->
  (io_fails env (h ++ [EvConfig ("branch." +:+ r +:+ ".remote") (remote_of a)])
     = Some err ->
   checkout env a h =
     ([EvConfig ("branch." +:+ r +:+ ".remote") (remote_of a)],
      Throw (set_caller "git.checkout" err)))
  /\ (io_fails env
        (h ++ [EvConfig ("branch." +:+ r +:+ ".remote") (remote_of a)])
        = None ->
      io_fails env
        (h ++ [EvConfig ("branch." +:+ r +:+ ".remote") (remote_of a);
               EvConfig ("branch." +:+ r +:+ ".merge") ("refs/heads/" +:+ r)])
        = Some err ->
      checkout env a h =
        ([EvConfig ("branch." +:+ r +:+ ".remote") (remote_of a);
          EvConfig ("branch." +:+ r +:+ ".merge") ("refs/heads/" +:+ r)],
         Throw (set_caller "git.checkout" err))).
Proof.
  intros Hr Hlocal Hremote. split.
  - intros H1. rewrite (checkout_run _ _ _ _ Hr), prepare_run.
    rewrite (resolve_or_track_remote _ _ _ _ _ _ Hlocal).
    unfold bind, ask, call. rewrite Hremote. cbn. rewrite ?app_nil_r.
    by rewrite H1.
  - intros H1 H2. rewrite (checkout_run _ _ _ _ Hr), prepare_run.
    rewrite (resolve_or_track_remote _ _ _ _ _ _ Hlocal).
    unfold bind, ask, call. rewrite Hremote. cbn. rewrite ?app_nil_r.
    rewrite H1. cbn. revert H2. list_norm. by intros ->.
Qed.

Lemma tracking_stops_at_refused_config_witness :
  checkout SampleX.config_refused Sample.args []
  = ([EvConfig "branch.feature.remote" "origin"],
     Throw (set_caller "git.checkout" SampleX.read_only)).
Proof.
  exact (proj1 (tracking_stops_at_refused_config SampleX.config_refused
                  Sample.args "feature" [] (Sample.no_ref "feature")
                  Sample.commit SampleX.read_only eq_refl eq_refl eq_refl)
               eq_refl).
Defined.

(** ** What the phases never call *)

Lemma unlink_loop_emits P env dir ops :
  (forall f, P (EvRm f)) -> emits P (unlink_loop env dir ops).
Proof.
  intros HP. unfold unlink_loop. repeat emits_step.
Qed.

Lemma write_loop_emits P env gitdir ops :
  emits P (write_loop env gitdir ops).
Proof. intros h. rewrite write_loop_run. constructor. Qed.

Lemma remove_index_entries_emits P env dir index :
  (forall f, P (EvRm f)) -> emits P (remove_index_entries env dir index).
Proof.
  intros HP. unfold remove_index_entries. repeat emits_step.
Qed.

Lemma materialize_map_not_config env dir t index :
  emits not_config (materialize_map env dir t index).
Proof.
  destruct t as [head workdir]. unfold materialize_map.
  repeat emits_step.
Qed.

Lemma apply_plan_not_config env dir gitdir ref oid fullRef ops index :
  emits not_config (apply_plan env dir gitdir ref oid fullRef ops index).
Proof.
  unfold apply_plan.
  apply emits_bind; [by apply unlink_loop_emits|]. intros _.
  apply emits_bind; [by apply write_loop_emits|]. intros _.
  apply emits_bind; [by apply remove_index_entries_emits|]. intros _.
  apply emits_bind; [by apply emits_emit|]. intros _.
  apply emits_bind.
  - unfold materialize. apply emits_try_catch; [|intros ?; apply emits_throw].
    intros h. apply emits_walkBeta1. intros ? ?.
    apply materialize_map_not_config.
  - intros ?. repeat emits_step.
Qed.

Lemma finish_not_config env dir gitdir ref x :
  emits not_config (finish env dir gitdir ref x).
Proof.
  destruct x as [[oid fullRef] plan]. unfold finish.
  apply emits_if; [apply emits_ret|].
  apply emits_bind; [|intros ?; apply emits_ret].
  unfold GitIndexManager.acquire.
  apply emits_bind; [by apply emits_emit|]. intros _.
  apply emits_bind; [|intros ?; by apply emits_emit].
  apply emits_try_catch.
  - apply emits_bind; [apply emits_ask|]. intros index.
    apply emits_bind; [apply apply_plan_not_config|]. intros ?.
    by apply emits_call.
  - intros ?. repeat emits_step.
Qed.

Lemma is_log_not_config ev : is_log ev -> not_config ev.
Proof. by destruct ev. Qed.

(** X5. When [ref] resolves locally, [checkout] never calls the config
    store: no tracking configuration is written for a branch that already
    exists, whatever the rest of the command does. *)
Theorem local_ref_leaves_config env a r h oid :
  ref a = Some r ->
  ref_resolve env h (gitdir_of env a) r None = Ok oid ->
  Forall not_config (checkout env a h).1.
Proof.
  intros Hr Hlocal. unfold checkout. rewrite Hr.
  assert (emits not_config
            (fun h' => (fullRef <- ask (fun h0 =>
                          ref_expand env h0 (gitdir_of env a) r) ;;
                        currentRef <- currentBranch env (gitdir_of env a) true ;;
                        plan <- classify env (dir a) (gitdir_of env a)
                                  currentRef r ;;
                        emit (EvLog (LogOperations (operations plan))) ;;;
                        emit (EvLog (LogErrors (errors plan))) ;;;
                        ret (oid, fullRef, plan)) h')) as Hrest.
  { apply emits_bind; [apply emits_ask|]. intros ?.
    apply emits_bind.
    { eapply emits_weaken; [apply is_log_not_config|].
      apply quiet_emits, currentBranch_quiet. }
    intros ?. apply emits_bind.
    { eapply emits_weaken; [apply is_log_not_config|].
      apply quiet_emits, classify_quiet. }
    intros ?. repeat emits_step. }
  rewrite try_catch_run, bind_run. unfold prepare. rewrite bind_run.
  rewrite (resolve_or_track_local _ _ _ _ _ _ Hlocal). rewrite app_nil_r.
  specialize (Hrest h). cbn beta in Hrest.
  destruct (bind (ask _) _ h) as [e2 [x|err]]; cbn [fst snd] in *.
  - pose proof (finish_not_config env (dir a) (gitdir_of env a) r x (h ++ e2))
      as Hfin.
    destruct (finish _ _ _ _ _ _) as [e3 [y|err]]; cbn [fst snd app] in *.
    + by apply Forall_app.
    + rewrite app_nil_r. by apply Forall_app.
  - by rewrite app_nil_r.
Qed.

Lemma local_ref_leaves_config_witness : Forall not_config SampleRun.calls.
Proof.
  exact (local_ref_leaves_config SampleRun.env Sample.args "feature" []
           Sample.commit eq_refl eq_refl).
Defined.

(** ** A failure before the apply phase *)

Lemma resolve_or_track_setup env gitdir remote ref :
  emits (is_setup gitdir ref) (resolve_or_track env gitdir remote ref).
Proof.
  unfold resolve_or_track.
  apply emits_try_catch; [apply emits_ask|]. intros _.
  apply emits_bind; [apply emits_ask|]. intros oid.
  apply emits_bind; [apply emits_call; cbn; by left|]. intros _.
  apply emits_bind; [apply emits_call; cbn; by right|]. intros _.
  apply emits_bind; [by apply emits_call|]. intros _. apply emits_ret.
Qed.

Lemma is_log_setup gitdir ref ev : is_log ev -> is_setup gitdir ref ev.
Proof. by destruct ev. Qed.

Lemma prepare_setup env dir gitdir remote ref :
  emits (is_setup gitdir ref) (prepare env dir gitdir remote ref).
Proof.
  unfold prepare.
  apply emits_bind; [apply resolve_or_track_setup|]. intros ?.
  apply emits_bind; [apply emits_ask|]. intros ?.
  apply emits_bind.
  { eapply emits_weaken; [apply is_log_setup|].
    apply quiet_emits, currentBranch_quiet. }
  intros ?. apply emits_bind.
  { eapply emits_weaken; [apply is_log_setup|].
    apply quiet_emits, classify_quiet. }
  intros ?. repeat emits_step.
Qed.

(** X6. When anything up to the end of the first walk throws (a ref that
    does not expand, an unreadable HEAD, a file or tree that cannot be
    read), [checkout] rethrows it tagged and stops: the calls made are
    only [console.log], the two config keys of the tracking branch and
    the write of [refs/heads/<ref>]; no file of the working directory is
    written or removed, the index lock is not taken, HEAD is not
    written. *)
Theorem failed_preparation_touches_no_file env a r h e1 err :
  ref a = Some r ->
  prepare env (dir a) (gitdir_of env a) (remote_of a) r h = (e1, Throw err) ->
  checkout env a h = (e1, Throw (set_caller "git.checkout" err))
  /\ Forall (is_setup (gitdir_of env a) r) e1.
Proof.
  intros Hr Hp. split.
  - by rewrite (checkout_run _ _ _ _ Hr), Hp.
  - pose proof (prepare_setup env (dir a) (gitdir_of env a) (remote_of a) r h)
      as Hs. by rewrite Hp in Hs.
Qed.

Lemma failed_preparation_touches_no_file_witness :
  checkout SampleX.broken_walk Sample.args []
  = ([], Throw (set_caller "git.checkout" (Sample.missing "t1"))).
Proof.
  exact (proj1 (failed_preparation_touches_no_file SampleX.broken_walk
                  Sample.args "feature" [] [] (Sample.missing "t1")
                  eq_refl ltac:(vm_compute; reflexivity))).
Defined.

(** ** More on the first walk *)

(** X7. A path that the old and the new tree hold with the same oid is
    left alone whatever the working directory has there: nothing is
    queued, no conflict is recorded, and the working-directory file is
    not even hashed, so a local edit of such a file, or a file that
    cannot be read, never blocks the checkout. *)
Theorem unchanged_path_keeps_local_edits
    ref workdir stage head next p h bh bn o ty m :
  fullpath workdir <> "." ->
  backing head = Some bh -> backing next = Some bn ->
  b_hash bh = Ok o -> b_hash bn = Ok o ->
  b_stat bn = Ok (ty, m) -> ty <> "tree" -> ty <> "commit" ->
  classify_map ref (workdir, stage, head, next) p h = ([], Ok p).
Proof.
  intros Hfp Hh Hn Hho Hno Hst Htree Hcommit.
  destruct head as [hfp hb hs hh hc], next as [nfp nb ns nh nc].
  cbn in Hh, Hn. subst hb nb.
  unfold classify_map. rewrite (bool_decide_eq_false_2 _ Hfp).
  unfold exists_, populateStat, populateHash, strict_eq, type, mode, oid,
    stat_of, hash_of.
  cbn [backing stat_known hash_known content_known fullpath negb andb].
  rewrite Hst. rewrite bind_lift_ok.
  cbn [backing stat_known hash_known fmap option_fmap option_map fst snd].
  rewrite Hst. cbn [fmap option_fmap option_map fst snd].
  rewrite (bool_decide_eq_false_2 (Some ty = Some "tree")) by congruence.
  rewrite (bool_decide_eq_false_2 (Some ty = Some "commit")) by congruence.
  cbn [negb andb]. rewrite Hho. rewrite bind_lift_ok. cbn [backing]. rewrite Hno.
  rewrite bind_lift_ok. cbn [backing hash_known]. rewrite Hho, Hno.
  by rewrite bool_decide_eq_true_2 by done.
Qed.

Lemma unchanged_path_keeps_local_edits_witness :
  classify_map "feature" SampleX.untouched_by_switch Sample.empty_plan []
  = ([], Ok Sample.empty_plan).
Proof.
  exact (unchanged_path_keeps_local_edits "feature"
           (entry "big.bin" (Some SampleX.unhashable)) (entry "big.bin" None)
           (entry "big.bin" (Some (Sample.blob "h7")))
           (entry "big.bin" (Some (Sample.blob "h7")))
           Sample.empty_plan [] (Sample.blob "h7") (Sample.blob "h7")
           "h7" "blob" "100644"
           ltac:(discriminate) eq_refl eq_refl eq_refl eq_refl eq_refl
           ltac:(discriminate) ltac:(discriminate)).
Defined.

Lemma walk_entries_readable ref l p h :
  Forall (fun t => tuple_readable t) l ->
  walk_entries (classify_map ref) l p h
    = (all_notices l, Ok (collect ref l p)).
Proof.
  intros Hl. revert p h.
  induction Hl as [|[[[workdir stage] head] next] l Ht Hl IH]; intros p h;
    [done|].
  cbn [walk_entries all_notices collect].
  unfold tuple_readable in Ht.
  apply andb_prop_elim in Ht as [Ht Hn].
  apply andb_prop_elim in Ht as [Hw Hh].
  eapply bind_then; [by apply classify_map_run|]. apply IH.
Qed.

Lemma enact_errors ref workdir next o p :
  errors (enact ref workdir next o p)
    = errors p ++ conflict_of ref (fullpath workdir) o.
Proof. destruct o; cbn; by rewrite ?app_nil_r. Qed.

Lemma collect_errors ref l p :
  errors (collect ref l p) = errors p ++ all_conflicts ref l.
Proof.
  revert p. induction l as [|[[[workdir stage] head] next] l IH]; intros p.
  - cbn. by rewrite app_nil_r.
  - cbn [collect all_conflicts]. rewrite IH, enact_errors. cbn [fst].
    by rewrite <- app_assoc.
Qed.

(** X8. The first walk is not fail-fast: over tuples that can all be
    read, it visits every one, and the errors array it ends with holds
    the conflict of every conflicting path, in walk order, after what the
    array held before; a conflict never stops the walk or hides a later
    one. *)
Theorem conflicts_all_collected ref l p h :
  Forall (fun t => tuple_readable t) l ->
  exists p',
    walk_entries (classify_map ref) l p h = (all_notices l, Ok p')
    /\ errors p' = errors p ++ all_conflicts ref l.
Proof.
  intros Hl. exists (collect ref l p). split.
  - by apply walk_entries_readable.
  - apply collect_errors.
Qed.

Lemma conflicts_all_collected_witness :
  exists p',
    walk_entries (classify_map "feature") SampleX.two_conflicts
      Sample.empty_plan [] = ([], Ok p')
    /\ errors p' = [ conflict (changed_message "a.txt" "feature");
                     conflict (deleted_message "z.txt" "feature") ].
Proof.
  exact (conflicts_all_collected "feature" SampleX.two_conflicts
           Sample.empty_plan []
           ltac:(repeat constructor)).
Defined.

Lemma classify_map_appends ref t p h e p' :
  classify_map ref t p h = (e, Ok p') ->
  p' = p
  \/ (exists o, op_shaped o /\ p' = push_operation o p)
  \/ (exists message, p' = push_error (conflict message) p).
Proof.
  destruct t as [[[workdir stage] head] next].
  destruct workdir as [wfp [[ws [wo|?] wc]|] wsk whk wck];
  destruct head as [hfp [[hs [ho|?] hc]|] hsk hhk hck];
  destruct next as [nfp [[[[nty nm]|?] [no|?] nc]|] nsk nhk nck];
  unfold classify_map, strict_eq, exists_, type, mode, oid, stat_of, hash_of,
    populateStat, populateHash, bind, lift, ret, throw, emit; cbn;
  repeat (case_bool_decide; cbn);
  intros Heq; simplify_eq; eauto;
  try (right; left; eexists; split; [|reflexivity]; by (split; cbn; eauto)).
Qed.

(** X9. The first walk only appends: whatever the entries are, when it
    completes, the operations and errors it was given are still there, in
    front; each visited path added at most one item; every queued unlink
    carries neither oid nor mode and every queued write carries both;
    every recorded error is an InternalFail. *)
Theorem plan_only_grows ref l p h e p' :
  walk_entries (classify_map ref) l p h = (e, Ok p') ->
  exists ops errs,
    operations p' = operations p ++ ops
    /\ errors p' = errors p ++ errs
    /\ Forall op_shaped ops
    /\ Forall (fun err => code err = E.InternalFail) errs
    /\ (length ops + length errs <= length l)%nat.
Proof.
  revert p h e. induction l as [|t l IH]; intros p h e Hwalk.
  - injection Hwalk as _ <-. exists [], []. by rewrite !app_nil_r.
  - cbn [walk_entries] in Hwalk.
    apply bind_inv_ok in Hwalk as (e1 & p1 & e2 & Ht & Hl & _).
    apply IH in Hl as (ops & errs & Hops & Herrs & Hshape & Hcode & Hlen).
    apply classify_map_appends in Ht as [->|[(o & Ho & ->)|(msg & ->)]].
    + exists ops, errs. repeat split; try done. cbn. lia.
    + exists (o :: ops), errs. cbn in *.
      rewrite <- app_assoc in Hops. repeat split; try done.
      * by constructor.
      * lia.
    + exists ops, (conflict msg :: errs). cbn in *.
      rewrite <- app_assoc in Herrs. repeat split; try done.
      * by constructor.
      * lia.
Qed.

Lemma plan_only_grows_witness :
  exists ops errs,
    operations SampleRun.plan = [] ++ ops
    /\ errors SampleRun.plan = [] ++ errs
    /\ Forall op_shaped ops
    /\ Forall (fun err => code err = E.InternalFail) errs
    /\ (length ops + length errs <= length Sample.clean_walk)%nat.
Proof.
  exact (plan_only_grows "feature" Sample.clean_walk Sample.empty_plan []
           [] SampleRun.plan ltac:(vm_compute; reflexivity)).
Defined.

(** ** More on the second walk *)

(** X10. A submodule of the new tree is not materialized: the second walk
    logs the NotImplementedFail notice for it and neither writes under
    its path nor inserts it into the index. *)
Theorem submodule_not_materialized env dir head workdir index h b m :
  fullpath head <> "." -> backing head = Some b ->
  b_stat b = Ok ("commit", m) ->
  materialize_map env dir (head, workdir) index h
    = ([EvLog (LogError submodule_notice)], Ok index)
  /\ code submodule_notice = E.NotImplementedFail.
Proof.
  intros Hfp Hb Hs. split; [|done].
  rewrite (materialize_map_stat _ _ _ _ _ _ _ _ _ Hfp Hb Hs).
  rewrite bool_decide_eq_false_2 by discriminate.
  by rewrite bool_decide_eq_true_2 by done.
Qed.

Lemma submodule_not_materialized_witness :
  materialize_map SampleRun.env "/w"
    (entry "vendor/lib" (Some SampleX.submodule), entry "vendor/lib" None)
    SampleRun.new_index []
  = ([EvLog (LogError submodule_notice)], Ok SampleRun.new_index).
Proof.
  exact (proj1 (submodule_not_materialized SampleRun.env "/w"
                  (entry "vendor/lib" (Some SampleX.submodule))
                  (entry "vendor/lib" None) SampleRun.new_index []
                  SampleX.submodule "160000"
                  ltac:(discriminate) eq_refl eq_refl)).
Defined.






Lemma inserts_app e1 e2 : inserts (e1 ++ e2) = inserts e1 ++ inserts e2.
Proof.
  induction e1 as [|ev e1 IH]; [done|]. destruct ev; cbn; by rewrite ?IH.
Qed.

Lemma materialize_map_inserts env dir t index h e index' :
  materialize_map env dir t index h = (e, Ok index') ->
  inserts e = if tracked_blob t then [(fullpath t.1, hash_of t.1)] else [].
Proof.
  destruct t as [[fp [[[[ty m]|?] [o|?] [c|?]]|] sk hk ck] workdir];
  unfold materialize_map, tracked_blob, strict_eq, exists_, type, mode, oid,
    content, stat_of, hash_of, content_of, populateStat, populateContent,
    populateHash, bind, lift, ret, throw, emit, call, ask; cbn;
  repeat (case_bool_decide; cbn); repeat case_match;
  intros Heq; simplify_eq; cbn; try done.
Qed.

Lemma walk_entries_inserts env dir l index h e index' :
  walk_entries (materialize_map env dir) l index h = (e, Ok index') ->
  inserts e = (fun t => (fullpath t.1, hash_of t.1)) <$>
              filter (fun t => tracked_blob t) l.
Proof.
  revert index h e. induction l as [|t l IH]; intros index h e Hwalk.
  - by injection Hwalk as <- _.
  - cbn [walk_entries] in Hwalk.
    apply bind_inv_ok in Hwalk as (e1 & index1 & e2 & Ht & Hl & ->).
    rewrite inserts_app, (materialize_map_inserts _ _ _ _ _ _ _ Ht),
      (IH _ _ _ Hl), filter_cons.
    destruct (tracked_blob t); by case_decide.
Qed.

(** X12. When the second walk completes, the index has received exactly
    one insert for every blob of the new tree (an existing entry other
    than the root whose type is blob), in walk order, each under the
    entry's path and with the oid of the tree, and no other insert. *)
Theorem index_receives_every_blob env dir gitdir ref oid index h e index' :
  materialize env dir gitdir ref oid index h = (e, Ok index') ->
  inserts e = (fun t => (fullpath t.1, hash_of t.1)) <$>
              filter (fun t => tracked_blob t)
                     (visited (walk_materialize env h dir gitdir ref)).
Proof.
  unfold materialize. rewrite try_catch_run. unfold walkBeta1.
  rewrite bind_run.
  destruct (walk_entries _ _ _ _) as [e1 [index1|err]] eqn:Hwalk;
    [|done].
  destruct (failure _); cbn; [done|].
  rewrite app_nil_r. intros [= <- _].
  by eapply walk_entries_inserts.
Qed.

Lemma index_receives_every_blob_witness :
  inserts SampleRun.second_walk = [("b.sh", Some "n2")].
Proof.
  exact (index_receives_every_blob SampleRun.env "/w" "/w/.git" "feature"
           Sample.commit [] [] SampleRun.second_walk SampleRun.new_index
           ltac:(vm_compute; reflexivity)).
Defined.

(** ** A failure in the apply phase *)

(** X13. The apply phase is not rolled back.  When no write is queued
    and the second walk throws, the queued unlinks and the removal of the
    files of the old index have been carried out and stay, as does what
    the walk did before it threw; after the walk nothing is called but
    the release of the lock by [GitIndexManager.acquire]: HEAD is not
    rewritten and the index is not saved; [checkout] throws the error of
    the walk, tagged. *)
Theorem failed_second_walk_not_rolled_back
    env a r h e1 oid fullRef plan index em err :
  ref a = Some r ->
  prepare env (dir a) (gitdir_of env a) (remote_of a) r h
    = (e1, Ok (oid, fullRef, plan)) ->
  errors plan = [] ->
  first_write (operations plan) = None ->
  index_load env (h ++ e1 ++ [EvAcquire (index_file (gitdir_of env a))])
             (index_file (gitdir_of env a)) = Ok index ->
  materialize env (dir a) (gitdir_of env a) r oid []
    (h ++ e1 ++ [EvAcquire (index_file (gitdir_of env a))] ++
     unlink_calls (dir a) (operations plan) ++
     index_rm_calls env (dir a) index ++ [EvIndexClear])
    = (em, Throw err) ->
  checkout env a h =
    (e1 ++ [EvAcquire (index_file (gitdir_of env a))] ++
     unlink_calls (dir a) (operations plan) ++
     index_rm_calls env (dir a) index ++ [EvIndexClear] ++ em ++
     [EvRelease (index_file (gitdir_of env a))],
     Throw (set_caller "git.checkout" err)).
Proof.
  intros Hr Hp Herr Hw Hload Hm.
  rewrite (checkout_apply_run _ _ _ _ _ _ _ _ _ Hr Hp Herr Hload).
  revert Hm. list_norm. intros Hm.
  rewrite apply_plan_run. cbn zeta. rewrite write_loop_run, Hw. list_norm.
  rewrite Hm. by list_norm.
Qed.

Lemma failed_second_walk_not_rolled_back_witness :
  checkout SampleX.unfetched Sample.args []
  = (SampleDone.logs ++
     [ EvAcquire "/w/.git/index"; EvRm "/w/a.txt";
       EvRm "/w/a.txt"; EvRm "/w/b.sh";
       EvIndexClear; EvRelease "/w/.git/index" ],
     Throw (set_caller "git.checkout" (Sample.missing "n2"))).
Proof.
  exact (failed_second_walk_not_rolled_back SampleX.unfetched Sample.args
           "feature" [] SampleDone.logs Sample.commit "refs/heads/feature"
           SampleDone.plan SampleDone.old_index []
           (Sample.missing "n2")
           eq_refl ltac:(vm_compute; reflexivity) eq_refl eq_refl eq_refl
           ltac:(vm_compute; reflexivity)).
Defined.

(** ** A checkout that queues no write *)

(** X14. When the first walk recorded no error and queued no write, the
    second walk completes, and the HEAD write and the save of the index
    are accepted, [checkout] completes, and its calls are, in this
    order: those up to the end of the first walk, the lock, [fs.rm] for
    every queued unlink, [fs.rm] for every file of the old index,
    [index.clear()], the second walk started from the empty index, the
    HEAD write, the save of the index that the second walk built, and
    the release of the lock. *)
Theorem checkout_without_queued_write
    env a r h e1 oid fullRef plan index em index' :
  ref a = Some r ->
  prepare env (dir a) (gitdir_of env a) (remote_of a) r h
    = (e1, Ok (oid, fullRef, plan)) ->
  errors plan = [] ->
  first_write (operations plan) = None ->
  index_load env (h ++ e1 ++ [EvAcquire (index_file (gitdir_of env a))])
             (index_file (gitdir_of env a)) = Ok index ->
  materialize env (dir a) (gitdir_of env a) r oid []
    (h ++ e1 ++ [EvAcquire (index_file (gitdir_of env a))] ++
     unlink_calls (dir a) (operations plan) ++
     index_rm_calls env (dir a) index ++ [EvIndexClear])
    = (em, Ok index') ->
  accepted env
    (h ++ e1 ++ [EvAcquire (index_file (gitdir_of env a))] ++
     unlink_calls (dir a) (operations plan) ++
     index_rm_calls env (dir a) index ++ [EvIndexClear] ++ em)
    [head_write (gitdir_of env a) fullRef;
     EvPersist (index_file (gitdir_of env a)) index'] ->
  checkout env a h =
    (e1 ++ [EvAcquire (index_file (gitdir_of env a))] ++
     unlink_calls (dir a) (operations plan) ++
     index_rm_calls env (dir a) index ++ [EvIndexClear] ++ em ++
     [head_write (gitdir_of env a) fullRef;
      EvPersist (index_file (gitdir_of env a)) index';
      EvRelease (index_file (gitdir_of env a))],
     Ok None).
Proof.
  intros Hr Hp Herr Hw Hload Hm (Hhead & Hpersist & _).
  rewrite (checkout_apply_run _ _ _ _ _ _ _ _ _ Hr Hp Herr Hload).
  revert Hm Hhead Hpersist. unfold head_write.
  list_norm. intros Hm Hhead Hpersist.
  rewrite apply_plan_run. cbn zeta. rewrite write_loop_run, Hw. list_norm.
  rewrite Hm. list_norm.
  rewrite Hhead. list_norm. rewrite Hpersist. done.
Qed.

Lemma checkout_without_queued_write_witness :
  checkout SampleDone.env Sample.args [] = (SampleDone.calls, Ok None).
Proof.
  exact (checkout_without_queued_write SampleDone.env Sample.args "feature"
           [] SampleDone.logs Sample.commit "refs/heads/feature"
           SampleDone.plan SampleDone.old_index
           SampleRun.second_walk SampleRun.new_index
           eq_refl ltac:(vm_compute; reflexivity) eq_refl eq_refl eq_refl
           ltac:(vm_compute; reflexivity)
           (conj eq_refl (conj eq_refl I))).
Defined.
